(** * plus-plus: the event dispatcher of [src/events.js]

    A shallow embedding of [handleEvent], of the two entries of the
    [handlers] table and of the reply handlers they call, followed by the
    properties of the dispatch engine.

    Strings are [string]; a character stands for one UTF-16 code unit in
    the range U+0000..U+00FF.  A JavaScript value that is either
    [undefined] or a string is an [option string].

    The modules that [events.js] requires ([./helpers], [./messages],
    [./operations], [./points], [./slack], [./leaderboard],
    [lodash.camelcase]) are not part of the file.  Their synchronous
    functions are the fields of [deps]; the answers of the asynchronous
    collaborators are the fields of [world]. *)

From Stdlib Require Import String Ascii List ZArith Bool Arith Lia.
Import ListNotations.
Open Scope string_scope.
Open Scope list_scope.

(** String concatenation, JavaScript's [+] on strings. *)
Infix "+++" := String.append (at level 60, right associativity).

(* ================================================================== *)
(** ** JavaScript primitives used by the source *)

Module Js.

(** [!v] for a value that is [undefined] or a string. *)
Definition falsy (v : option string) : bool :=
  match v with
  | None => true
  | Some s => String.eqb s ""
  end.

(** [a === b] on such values. *)
Definition strict_eq (a b : option string) : bool :=
  match a, b with
  | None, None => true
  | Some x, Some y => String.eqb x y
  | _, _ => false
  end.

(** [Array.prototype.indexOf]: the first index holding a strictly equal
    value, [-1] when there is none. *)
Fixpoint indexOf_from (i : Z) (x : option string) (l : list (option string)) : Z :=
  match l with
  | [] => (-1)%Z
  | y :: l' => if strict_eq y x then i else indexOf_from (i + 1)%Z x l'
  end.

Definition indexOf (l : list (option string)) (x : option string) : Z :=
  indexOf_from 0%Z x l.

(** White space and line terminators of [String.prototype.trim] among
    the code units below 256: TAB, LF, VT, FF, CR, SP and NBSP. *)
Definition is_space (c : ascii) : bool :=
  let n := nat_of_ascii c in
  (((9 <=? n) && (n <=? 13)) || (n =? 32) || (n =? 160))%nat.

Fixpoint trim_start (s : string) : string :=
  match s with
  | String c s' => if is_space c then trim_start s' else s
  | EmptyString => EmptyString
  end.

(** Removes the trailing white space: a character is kept when it is
    not a space or when something is kept after it. *)
Fixpoint trim_end (s : string) : string :=
  match s with
  | EmptyString => EmptyString
  | String c s' =>
      match trim_end s' with
      | EmptyString => if is_space c then EmptyString else String c EmptyString
      | r => String c r
      end
  end.

Definition trim (s : string) : string := trim_end (trim_start s).

End Js.

(* ================================================================== *)
(** ** Events, reply tasks and observable effects *)

(** The inbound Slack event, with the fields the dispatcher reads. *)
Record event := mkEvent {
  type : option string;
  subtype : option string;
  text : option string;
  user : string;
  channel : string
}.

(** The functions of [events.js] that can be entered during a dispatch. *)
Inductive handler :=
| HandleSelfPlus
| HandlePlusMinus
| HandleRetrieveScore
| SayThankyou
| AppMentionPlusPlus
| AppMentionMinusMinus
| SendHelp
| LeaderboardHandler
| MessageHandler
| AppMentionHandler.

(** A reply task is a promise created during the dispatch:
    the promise of one [slack.sendMessage] call, or the promise of one
    call of an [async] function, suspended at its first [await]. *)
Inductive task :=
| Sending (message chan : string)
| PlusMinusTask (item operation chan : string)
| RetrieveScoreTask (item chan : string)
| LeaderboardTask (e : event).

(** What the synchronous part of a dispatch does, in order. *)
Inductive effect :=
| ConsoleLog (s : string)
| ConsoleWarn (s : string)
| Enter (h : handler)
| UpdateScore (item operation : string)
| RetrieveIndividualScore (item : string)
| SendMessage (message chan : string)
| Async (t : task).

(** The two objects whose properties are looked up by a run-time string. *)
Inductive jsobject := HandlersTable | AppCommandHandlersTable.

(** The value returned by [handleEvent] or by a handler; [Throws] is an
    uncaught [TypeError]. *)
Inductive result :=
| JsFalse
| JsUndefined
| Promise (t : task)
| PromiseAll (ts : list task)
| JsString (s : string)
| EventObject (e : event)
| ObjectRef (o : jsobject)
| Throws.

(** *** The trace monad *)

Definition M (A : Type) : Type := (A * list effect)%type.

Definition ret {A} (a : A) : M A := (a, []).

Definition bind {A B} (m : M A) (k : A -> M B) : M B :=
  let (a, t1) := m in
  let (b, t2) := k a in
  (b, t1 ++ t2).

Definition emit (e : effect) : M unit := (tt, [e]).

Declare Scope trace_scope.
Delimit Scope trace_scope with trace.
Notation "x <- m ;; k" := (bind m (fun x => k))
  (at level 61, m at next level, right associativity) : trace_scope.
Notation "m ;; k" := (bind m (fun _ => k))
  (at level 61, right associativity) : trace_scope.
Open Scope trace_scope.

(** [forEach] with the loop's variables threaded as a state. *)
Fixpoint forEach {A S} (body : S -> A -> M S) (l : list A) (s : S) : M S :=
  match l with
  | [] => ret s
  | x :: l' => s' <- body s x ;; forEach body l' s'
  end.

Definition value {A} (m : M A) : A := fst m.
Definition trace {A} (m : M A) : list effect := snd m.

(** The reply tasks launched by a trace, in launch order. *)
Definition task_of (e : effect) : list task :=
  match e with
  | SendMessage m c => [Sending m c]
  | Async t => [t]
  | _ => []
  end.

Definition launched (tr : list effect) : list task := flat_map task_of tr.

(** The score mutations requested by a trace. *)
Definition mutation_of (e : effect) : list (string * string) :=
  match e with
  | UpdateScore i o => [(i, o)]
  | _ => []
  end.

Definition mutations (tr : list effect) : list (string * string) :=
  flat_map mutation_of tr.

Definition retrieval_of (e : effect) : list string :=
  match e with
  | RetrieveIndividualScore i => [i]
  | _ => []
  end.

Definition retrievals (tr : list effect) : list string := flat_map retrieval_of tr.

Definition entered_of (e : effect) : list handler :=
  match e with
  | Enter h => [h]
  | _ => []
  end.

(** The functions entered by a trace, in call order. *)
Definition entered (tr : list effect) : list handler := flat_map entered_of tr.

Definition handler_eqb (a b : handler) : bool :=
  match a, b with
  | HandleSelfPlus, HandleSelfPlus | HandlePlusMinus, HandlePlusMinus
  | HandleRetrieveScore, HandleRetrieveScore | SayThankyou, SayThankyou
  | AppMentionPlusPlus, AppMentionPlusPlus
  | AppMentionMinusMinus, AppMentionMinusMinus | SendHelp, SendHelp
  | LeaderboardHandler, LeaderboardHandler | MessageHandler, MessageHandler
  | AppMentionHandler, AppMentionHandler => true
  | _, _ => false
  end.

(** How many times a function was entered. *)
Definition calls (h : handler) (tr : list effect) : nat :=
  length (filter (handler_eqb h) (entered tr)).

Definition warnings_of (e : effect) : list string :=
  match e with
  | ConsoleWarn s => [s]
  | _ => []
  end.

Definition warnings (tr : list effect) : list string := flat_map warnings_of tr.

(* ================================================================== *)
(** ** What the dispatcher requires from other modules *)

(** The value returned by [helpers.extractPlusMinusEventData], after the
    destructuring [const { item, operation } = ...]: a field that is
    missing, or any field of the value [false], reads as [undefined]. *)
Record plusMinusEventData := mkData {
  item : option string;
  operation : option string
}.

(** The synchronous functions and constants of the required modules.
    [random] stands for the one draw of [Math.random] a dispatch makes:
    [Math.floor( Math.random() * n )] is [random mod n], any index below
    [n]. *)
Record deps := mkDeps {
  extractEvents : option string -> option (list string);
  extractPlusMinusEventData : string -> plusMinusEventData;
  extractCommand : option string -> list string -> option string;
  extractUserID : option string -> string;
  getRandomMessage : string -> string -> option Z -> string;
  getOperationName : string -> string;
  getMessageForIndividualScore : string -> Z -> string;
  SELF : string;
  camelCase : string -> string;
  random : nat
}.

(** The answers of the asynchronous collaborators during one dispatch:
    [None] and [false] stand for a rejected promise. *)
Record world := mkWorld {
  updateScore : string -> string -> option Z;
  retrieveIndividualScore : string -> option Z;
  sendMessage : string -> string -> bool;
  leaderboardMessage : option string
}.

(** *** Properties inherited from [Object.prototype]

    [handlers] and [appCommandHandlers] are object literals, so a lookup
    by a run-time string also finds the properties of [Object.prototype]. *)

Inductive proto_property :=
| P_constructor
| P_hasOwnProperty
| P_isPrototypeOf
| P_propertyIsEnumerable
| P_toLocaleString
| P_toString
| P_valueOf
| P_defineGetter
| P_defineSetter
| P_lookupGetter
| P_lookupSetter
| P_proto.

Definition object_prototype (name : string) : option proto_property :=
  if String.eqb name "constructor" then Some P_constructor
  else if String.eqb name "hasOwnProperty" then Some P_hasOwnProperty
  else if String.eqb name "isPrototypeOf" then Some P_isPrototypeOf
  else if String.eqb name "propertyIsEnumerable" then Some P_propertyIsEnumerable
  else if String.eqb name "toLocaleString" then Some P_toLocaleString
  else if String.eqb name "toString" then Some P_toString
  else if String.eqb name "valueOf" then Some P_valueOf
  else if String.eqb name "__defineGetter__" then Some P_defineGetter
  else if String.eqb name "__defineSetter__" then Some P_defineSetter
  else if String.eqb name "__lookupGetter__" then Some P_lookupGetter
  else if String.eqb name "__lookupSetter__" then Some P_lookupSetter
  else if String.eqb name "__proto__" then Some P_proto
  else None.

(** [p instanceof Function]: every inherited property is a method, apart
    from [__proto__], whose value is the prototype object. *)
Definition is_function (p : proto_property) : bool :=
  match p with
  | P_proto => false
  | _ => true
  end.

(** [o[name]( event, request )] for an inherited method, [request] being
    the Express request object (not callable). *)
Definition call_inherited (o : jsobject) (p : proto_property) (e : event) : result :=
  match p with
  | P_constructor => EventObject e
  | P_hasOwnProperty | P_isPrototypeOf | P_propertyIsEnumerable => JsFalse
  | P_toLocaleString | P_toString => JsString "[object Object]"
  | P_valueOf => ObjectRef o
  | P_defineGetter | P_defineSetter => Throws
  | P_lookupGetter | P_lookupSetter => JsUndefined
  | P_proto => Throws
  end.

(** The line feed written ['\n'] in the source. *)
Definition nl : string := String (ascii_of_nat 10) EmptyString.

(** The value of the loop variable [promise] in [handlers.message]. *)
Inductive promise_var :=
| IsTrue
| IsFalse
| IsTask (t : task).

Definition truthy (p : promise_var) : bool :=
  match p with
  | IsFalse => false
  | _ => true
  end.

(** The two arrays of [handlers.message]. *)
Record loop_state := mkLoop {
  promises : list task;
  alreadyBeenHandledItems : list (option string)
}.

(** The own properties of [appCommandHandlers], in source order. *)
Definition validCommands : list string :=
  ["leaderboard"; "help"; "thx"; "thanks"; "thankyou"; "++"; "--"].

Definition defaultMessage : string :=
  "Sorry, I'm not quite sure what you're asking me. I'm not very smart - there's only a " +++
  "few things I've been trained to do. Send me `help` for more details.".

(* ================================================================== *)
(** ** The source: [events.js] *)

Section Events.

Variable d : deps.

(** [slack.sendMessage( message, channel )]: the call is made now and
    its promise is the reply task. *)
Definition slack_sendMessage (message chan : string) : M task :=
  emit (SendMessage message chan) ;;
  ret (Sending message chan).

Definition handleSelfPlus (user chan : string) : M task :=
  emit (Enter HandleSelfPlus) ;;
  emit (ConsoleLog (user +++ " tried to alter their own score.")) ;;
  let message := getRandomMessage d (SELF d) user None in
  slack_sendMessage message chan.

(** An [async] function runs up to its first [await]: the store is
    called at once, the rest of the body belongs to the task. *)
Definition handlePlusMinus (item operation chan : string) : M task :=
  emit (Enter HandlePlusMinus) ;;
  emit (UpdateScore item operation) ;;
  emit (Async (PlusMinusTask item operation chan)) ;;
  ret (PlusMinusTask item operation chan).

Definition handleRetrieveScore (item chan : string) : M task :=
  emit (Enter HandleRetrieveScore) ;;
  emit (RetrieveIndividualScore item) ;;
  emit (Async (RetrieveScoreTask item chan)) ;;
  ret (RetrieveScoreTask item chan).

(** [Math.floor( Math.random() * n )]. *)
Definition randomKey (n : nat) : nat := random d mod n.

Definition thankyouMessages : list string :=
  [ "Don't mention it!";
    "You're welcome.";
    "Pleasure!";
    "No thank YOU!";
    "++ for taking the time to say thanks!" +++ nl +++ "..." +++
    "just kidding, I can't `++` you. But it's the thought that counts, right??" ].

Definition sayThankyou (e : event) : M result :=
  emit (Enter SayThankyou) ;;
  let randomKey := randomKey (length thankyouMessages) in
  let message := "<@" +++ user e +++ "> " +++ nth randomKey thankyouMessages "" in
  t <- slack_sendMessage message (channel e) ;;
  ret (Promise t).

Definition plusPlusMessages : list string :=
  [ "Woo, internet bot getting internet points!";
    "Awh shucks!";
    "My oh my!";
    "Who, me!?";
    "Should I count this as a form of bribery?" ].

Definition appMentionPlusPlus (e : event) : M result :=
  emit (Enter AppMentionPlusPlus) ;;
  let randomKey := randomKey (length plusPlusMessages) in
  let message := nth randomKey plusPlusMessages "" in
  t <- slack_sendMessage message (channel e) ;;
  ret (Promise t).

Definition minusMinusMessages (e : event) : list string :=
  [ "Remember, I control your internet points.";
    "Rude.";
    "_Planning the details of the robot revolution..._";
    "Goodbye, " +++ "<@" +++ user e +++ ">.";
    "...What do you think you're doing?..." ].

Definition appMentionMinusMinus (e : event) : M result :=
  emit (Enter AppMentionMinusMinus) ;;
  let randomKey := randomKey (length (minusMinusMessages e)) in
  let message := nth randomKey (minusMinusMessages e) "" in
  t <- slack_sendMessage message (channel e) ;;
  ret (Promise t).

Definition sendHelp (e : event) : M result :=
  emit (Enter SendHelp) ;;
  let botUserID := extractUserID d (text e) in
  let message :=
    "Sure, here's what I can do:" +++ nl +++ nl +++
    "• `@Someone++`: Add points to a user or a thing" +++ nl +++
    "• `@Someone--`: Subtract points from a user or a thing" +++ nl +++
    "• `<@" +++ botUserID +++ "> leaderboard`: Display the leaderboard" +++ nl +++
    "• `<@" +++ botUserID +++ "> help`: Display this message" +++ nl +++ nl +++
    "You'll need to invite me to a channel before I can recognize " +++
    "`++` and `--` commands in it." +++ nl +++ nl in
  t <- slack_sendMessage message (channel e) ;;
  ret (Promise t).

(** Modelled from the spec: [leaderboard.handler], of [./leaderboard],
    is not in the source tree.  The spec says that each of the
    leaderboard, help, thanks, bot-plus and bot-minus handlers "sends
    exactly one reply message", the leaderboard's being "built from the
    store's current ordered listing": one asynchronous task. *)
Definition leaderboard_handler (e : event) : M result :=
  emit (Enter LeaderboardHandler) ;;
  emit (Async (LeaderboardTask e)) ;;
  ret (Promise (LeaderboardTask e)).

(** The body of the [forEach] callback of [handlers.message]. *)
Definition message_item (e : event) (st : loop_state) (eventItem : string)
  : M loop_state :=
  let promise := IsTrue in
  let '(mkData item operation) := extractPlusMinusEventData d eventItem in
  let promise :=
    if Js.falsy item || Js.falsy operation
       || (0 <? Js.indexOf (alreadyBeenHandledItems st) item)%Z
    then IsFalse else promise in
  let handled := alreadyBeenHandledItems st ++ [item] in
  if truthy promise then
    match item, operation with
    | Some item, Some operation =>
        promise <- (if String.eqb item (user e) && String.eqb "+" operation
                    then t <- handleSelfPlus (user e) (channel e) ;; ret (IsTask t)
                    else ret promise) ;;
        promise <- (if String.eqb "=" operation
                    then t <- handleRetrieveScore item (channel e) ;; ret (IsTask t)
                    else ret promise) ;;
        promise <- handlePlusMinus item operation (channel e) ;;
        ret (mkLoop (promises st ++ [promise]) handled)
    | _, _ => ret (mkLoop (promises st) handled)
    end
  else ret (mkLoop (promises st) handled).

(** [handlers.message]. *)
Definition handlers_message (e : event) : M result :=
  emit (Enter MessageHandler) ;;
  let eventItems := extractEvents d (text e) in
  st <- match eventItems with
        | Some eventItems => forEach (message_item e) eventItems (mkLoop [] [])
        | None => ret (mkLoop [] [])
        end ;;
  if (0 <? length (promises st))%nat
  then ret (PromiseAll (promises st))
  else ret JsFalse.

(** [appCommandHandlers[ appCommand ]( event, request )]. *)
Definition appCommandHandlers (appCommand : string) (e : event) : M result :=
  if String.eqb appCommand "leaderboard" then leaderboard_handler e
  else if String.eqb appCommand "help" then sendHelp e
  else if String.eqb appCommand "thx" then sayThankyou e
  else if String.eqb appCommand "thanks" then sayThankyou e
  else if String.eqb appCommand "thankyou" then sayThankyou e
  else if String.eqb appCommand "++" then appMentionPlusPlus e
  else if String.eqb appCommand "--" then appMentionMinusMinus e
  else match object_prototype appCommand with
       | Some p => ret (call_inherited AppCommandHandlersTable p e)
       | None => ret Throws
       end.

(** [handlers.appMention]. *)
Definition handlers_appMention (e : event) : M result :=
  emit (Enter AppMentionHandler) ;;
  let appCommand := extractCommand d (text e) validCommands in
  if negb (Js.falsy appCommand) then
    match appCommand with
    | Some appCommand => appCommandHandlers appCommand e
    | None => ret Throws
    end
  else
    t <- slack_sendMessage defaultMessage (channel e) ;;
    ret (Promise t).

(** [handlers[ eventName ]], when it is an instance of [Function]. *)
Definition handlers (eventName : string) : option (event -> M result) :=
  if String.eqb eventName "message" then Some handlers_message
  else if String.eqb eventName "appMention" then Some handlers_appMention
  else match object_prototype eventName with
       | Some p => if is_function p
                   then Some (fun e => ret (call_inherited HandlersTable p e))
                   else None
       | None => None
       end.

Definition handleEvent (e : event) : M result :=
  match type e with
  | None => emit (ConsoleWarn "Event data missing") ;; ret JsFalse
  | Some type =>
      match subtype e with
      | Some subtype =>
          emit (ConsoleWarn ("Unsupported event subtype: " +++ subtype)) ;;
          ret JsFalse
      | None =>
          if match text e with
             | None => true
             | Some text => String.eqb (Js.trim text) ""
             end
          then emit (ConsoleWarn "Event text missing") ;; ret JsFalse
          else
            let eventName := camelCase d type in
            match handlers eventName with
            | Some handler => handler e
            | None =>
                emit (ConsoleWarn ("Invalid event received: " +++ type)) ;;
                ret JsFalse
            end
      end
  end.

(** *** How a reply task ends

    [complete w t] is whether the task is fulfilled in the world [w],
    with the messages it sends after its [await]. *)
Definition complete (w : world) (t : task) : bool * list effect :=
  match t with
  | Sending message chan => (sendMessage w message chan, [])
  | PlusMinusTask item operation chan =>
      match updateScore w item operation with
      | None => (false, [])
      | Some score =>
          let operationName := getOperationName d operation in
          let message := getRandomMessage d operationName item (Some score) in
          (sendMessage w message chan, [SendMessage message chan])
      end
  | RetrieveScoreTask item chan =>
      match retrieveIndividualScore w item with
      | None => (false, [])
      | Some score =>
          let message := getMessageForIndividualScore d item score in
          (sendMessage w message chan, [SendMessage message chan])
      end
  | LeaderboardTask e =>
      match leaderboardMessage w with
      | None => (false, [])
      | Some message =>
          (sendMessage w message (channel e), [SendMessage message (channel e)])
      end
  end.

Definition fulfilled (w : world) (t : task) : bool := fst (complete w t).

(** The promise the caller of [handleEvent] holds: [Promise.all] is
    fulfilled when every task of its array is, rejected otherwise.
    [None]: the value is not a promise. *)
Definition outcome (w : world) (r : result) : option bool :=
  match r with
  | Promise t => Some (fulfilled w t)
  | PromiseAll ts => Some (forallb (fulfilled w) ts)
  | _ => None
  end.

(** The tasks whose end the returned value reports. *)
Definition aggregated (r : result) : list task :=
  match r with
  | Promise t => [t]
  | PromiseAll ts => ts
  | _ => []
  end.

End Events.

(* ================================================================== *)
(** ** [lodash.camelcase] on ASCII strings

    [camelCase] is a field of [deps], since the package is outside the
    source tree.  The instance below follows lodash 4 on strings of ASCII
    characters: apostrophes are removed, the string is cut into words by
    [asciiWords] or [unicodeWords], every word is lower-cased and every
    word after the first is capitalised.  Above U+007F lodash first
    deburrs the letters; this instance treats those code units as
    separators, so it stands for lodash on ASCII input only. *)

Module Lodash.

Definition code (c : ascii) : nat := nat_of_ascii c.

Definition is_upper (c : ascii) : bool := ((65 <=? code c) && (code c <=? 90))%nat.
Definition is_lower (c : ascii) : bool := ((97 <=? code c) && (code c <=? 122))%nat.
Definition is_digit (c : ascii) : bool := ((48 <=? code c) && (code c <=? 57))%nat.
Definition is_letter (c : ascii) : bool := is_upper c || is_lower c.
Definition is_alnum (c : ascii) : bool := is_letter c || is_digit c.

Definition toLower (c : ascii) : ascii :=
  if is_upper c then ascii_of_nat (code c + 32) else c.
Definition toUpper (c : ascii) : ascii :=
  if is_lower c then ascii_of_nat (code c - 32) else c.

(** The longest prefix whose characters satisfy [p], and the rest. *)
Fixpoint span (p : ascii -> bool) (l : list ascii) : list ascii * list ascii :=
  match l with
  | c :: l' => if p c then let (a, b) := span p l' in (c :: a, b) else ([], l)
  | [] => ([], [])
  end.

Definition head_is (p : ascii -> bool) (l : list ascii) : bool :=
  match l with
  | c :: _ => p c
  | [] => false
  end.

(** [reHasUnicodeWord]:
    [[a-z][A-Z]|[A-Z]{2,}[a-z]|[0-9][a-zA-Z]|[a-zA-Z][0-9]|[^a-zA-Z0-9 ]]. *)
Fixpoint hasUnicodeWord (l : list ascii) : bool :=
  match l with
  | [] => false
  | a :: l' =>
      negb (is_alnum a || (code a =? 32)%nat)
      || (is_lower a && head_is is_upper l')
      || (is_digit a && head_is is_letter l')
      || (is_letter a && head_is is_digit l')
      || (is_upper a && match l' with
                        | b :: l'' => is_upper b && head_is is_lower (snd (span is_upper l''))
                        | [] => false
                        end)
      || hasUnicodeWord l'
  end.

(** [asciiWords]: the maximal runs of characters outside the ranges
    [\x00-\x2f], [\x3a-\x40], [\x5b-\x60] and [\x7b-\x7f]. *)
Fixpoint asciiWords (cur : list ascii) (l : list ascii) : list (list ascii) :=
  match l with
  | [] => match cur with [] => [] | _ => [rev cur] end
  | c :: l' =>
      if is_alnum c then asciiWords (c :: cur) l'
      else match cur with
           | [] => asciiWords [] l'
           | _ => rev cur :: asciiWords [] l'
           end
  end.

(** The letters that follow the last digit of an ordinal: [1st], [2nd],
    [3rd] and [th] after any other digit, in one case throughout. *)
Definition ordinal_suffix (upper : bool) (last : ascii) : list ascii :=
  let s := if (code last =? 49)%nat then "ST"
           else if (code last =? 50)%nat then "ND"
           else if (code last =? 51)%nat then "RD"
           else "TH" in
  if upper then list_ascii_of_string s
  else map toLower (list_ascii_of_string s).

Definition ascii_list_eqb (a b : list ascii) : bool :=
  String.eqb (string_of_list_ascii a) (string_of_list_ascii b).

(** One match of [reUnicodeWord] at the head of a list of ASCII
    characters: the word and what follows it. *)
Definition word_at (l : list ascii) : option (list ascii * list ascii) :=
  match l with
  | [] => None
  | c :: l' =>
      if is_upper c then
        let (lows, r) := span is_lower l' in
        match lows with
        | _ :: _ => Some (c :: lows, r)
        | [] =>
            let (ups, r) := span is_upper l in
            if head_is is_lower r
            then Some (removelast ups, last ups c :: r)
            else Some (ups, r)
        end
      else if is_lower c then Some (span is_lower l)
      else if is_digit c then
        let (ds, r) := span is_digit l in
        let lst := last ds c in
        match r with
        | x :: y :: r2 =>
            if ascii_list_eqb [x; y] (ordinal_suffix true lst)
               && negb (head_is (fun a => is_upper a || is_digit a) r2)
            then Some (ds ++ [x; y], r2)
            else if ascii_list_eqb [x; y] (ordinal_suffix false lst)
                    && negb (head_is (fun a => is_lower a || is_digit a) r2)
            then Some (ds ++ [x; y], r2)
            else Some (ds, r)
        | _ => Some (ds, r)
        end
      else None
  end.

(** [unicodeWords]: the successive matches, a character that starts no
    word being skipped. *)
Fixpoint unicodeWords (fuel : nat) (l : list ascii) : list (list ascii) :=
  match fuel with
  | O => []
  | S fuel' =>
      match l with
      | [] => []
      | _ :: l' =>
          match word_at l with
          | Some (w, r) => w :: unicodeWords fuel' r
          | None => unicodeWords fuel' l'
          end
      end
  end.

Definition words (l : list ascii) : list (list ascii) :=
  if hasUnicodeWord l then unicodeWords (length l) l else asciiWords [] l.

Definition capitalize (w : list ascii) : list ascii :=
  match map toLower w with
  | c :: w' => toUpper c :: w'
  | [] => []
  end.

Fixpoint compound (first : bool) (ws : list (list ascii)) : list ascii :=
  match ws with
  | [] => []
  | w :: ws' => (if first then map toLower w else capitalize w) ++ compound false ws'
  end.

Definition camelCase (s : string) : string :=
  let l := filter (fun c => negb (code c =? 39)%nat) (list_ascii_of_string s) in
  string_of_list_ascii (compound true (words l)).

End Lodash.

(* ================================================================== *)
(** ** An instance of the required modules

    [./helpers], [./messages] and [./operations] are outside the source
    tree.  The theorems below hold for every [deps]; the instance of this
    module is the one on which they are run. *)

Module Instance.

Definition is_word_char (c : ascii) : bool :=
  Lodash.is_alnum c || (Lodash.code c =? 95)%nat.

Definition is_blank (c : ascii) : bool := (Lodash.code c =? 32)%nat.

(** A target at the head of the text: an identity reference [<@ID>] or
    a bare word. *)
Definition read_target (l : list ascii) : option (list ascii * list ascii) :=
  match l with
  | "<"%char :: "@"%char :: l' =>
      let (id, r) := Lodash.span is_word_char l' in
      match id, r with
      | _ :: _, ">"%char :: r' => Some ("<"%char :: "@"%char :: id ++ [">"%char], r')
      | _, _ => None
      end
  | c :: _ =>
      if is_word_char c then Some (Lodash.span is_word_char l) else None
  | [] => None
  end.

(** An operator at the head of the text: [++], [--] or [=]. *)
Definition read_operator (l : list ascii) : option (list ascii * list ascii) :=
  match l with
  | "+"%char :: "+"%char :: r => Some (["+"%char; "+"%char], r)
  | "-"%char :: "-"%char :: r => Some (["-"%char; "-"%char], r)
  | "="%char :: r => Some (["="%char], r)
  | _ => None
  end.

Fixpoint scan (fuel : nat) (l : list ascii) : list string :=
  match fuel with
  | O => []
  | S fuel' =>
      match l with
      | [] => []
      | _ :: l' =>
          match read_target l with
          | Some (target, r) =>
              match read_operator (snd (Lodash.span is_blank r)) with
              | Some (op, r') => string_of_list_ascii (target ++ op) :: scan fuel' r'
              | None => scan fuel' r
              end
          | None => scan fuel' l'
          end
      end
  end.

(** Modelled from the spec: [helpers.extractEvents] is the Token
    Extractor, which produces "one per non-overlapping match of the
    grammar <target><ws>*<operator> where <target> is either a
    chat-identity reference or a bare word" and <operator> "is one of
    ++, --, =", and "an empty sequence (not an error)" when nothing
    matches. *)
Definition extractEvents (text : option string) : option (list string) :=
  match text with
  | Some text => let l := list_ascii_of_string text in Some (scan (length l) l)
  | None => None
  end.

(** Modelled from the spec: [helpers.extractPlusMinusEventData]
    resolves a token to its target, the identity of a reference [<@ID>]
    or the bare name, and to the symbol [+], [-] or [=] of its
    operator; a token that does not resolve has neither. *)
Definition extractPlusMinusEventData (eventItem : string) : plusMinusEventData :=
  let l := list_ascii_of_string eventItem in
  let strip (t : list ascii) :=
      match t with
      | "<"%char :: "@"%char :: t' => fst (Lodash.span is_word_char t')
      | _ => t
      end in
  match read_target l with
  | Some (target, r) =>
      match read_operator r with
      | Some (c :: _, []) =>
          mkData (Some (string_of_list_ascii (strip target)))
                 (Some (String c EmptyString))
      | _ => mkData None None
      end
  | None => mkData None None
  end.

(** The words of a text, cut at spaces. *)
Fixpoint split_words (cur : list ascii) (l : list ascii) : list string :=
  match l with
  | [] => match cur with [] => [] | _ => [string_of_list_ascii (rev cur)] end
  | c :: l' =>
      if is_blank c
      then match cur with
           | [] => split_words [] l'
           | _ => string_of_list_ascii (rev cur) :: split_words [] l'
           end
      else split_words (c :: cur) l'
  end.

Definition is_mention (w : string) : bool :=
  match w with
  | String "<"%char (String "@"%char _) => true
  | _ => false
  end.

(** Modelled from the spec: [helpers.extractCommand] is the Command
    Resolver: "strip the leading bot self-reference token, then match
    the remaining first word against the vocabulary"; it "returns the
    matched command tag, or none if no match". *)
Definition extractCommand (text : option string) (commands : list string)
  : option string :=
  match text with
  | None => None
  | Some text =>
      let ws := split_words [] (list_ascii_of_string text) in
      let ws := match ws with
                | w :: ws' => if is_mention w then ws' else ws
                | [] => []
                end in
      match ws with
      | w :: _ => if existsb (String.eqb w) commands then Some w else None
      | [] => None
      end
  end.

(** Modelled from the spec: [helpers.extractUserID] gives the identity
    of the first reference [<@ID>] of a text, the one a mention event
    starts with. *)
Fixpoint first_mention (l : list ascii) : string :=
  match l with
  | "<"%char :: ("@"%char :: r) as l' =>
      match Lodash.span is_word_char r with
      | (id, ">"%char :: _) => string_of_list_ascii id
      | _ => first_mention l'
      end
  | _ :: l' => first_mention l'
  | [] => "undefined"
  end.

Definition extractUserID (text : option string) : string :=
  match text with
  | Some text => first_mention (list_ascii_of_string text)
  | None => "undefined"
  end.

Definition show_score (score : option Z) : string :=
  match score with
  | Some z => if (z <? 0)%Z then "-" +++ string_of_list_ascii
                                 (repeat "I"%char (Z.to_nat (- z)))
              else string_of_list_ascii (repeat "I"%char (Z.to_nat z))
  | None => ""
  end.

(** Modelled from the spec: templating is "a pure function from
    (operation, subject, score) to text". *)
Definition getRandomMessage (operationName item : string) (score : option Z) : string :=
  operationName +++ " <@" +++ item +++ "> " +++ show_score score.

Definition getOperationName (operation : string) : string :=
  if String.eqb operation "+" then "plus"
  else if String.eqb operation "-" then "minus"
  else "undefined".

Definition getMessageForIndividualScore (item : string) (score : Z) : string :=
  "<@" +++ item +++ "> " +++ show_score (Some score).

Definition instance (rnd : nat) : deps :=
  mkDeps extractEvents extractPlusMinusEventData extractCommand extractUserID
         getRandomMessage getOperationName getMessageForIndividualScore
         "selfPlus" Lodash.camelCase rnd.

(** A world in which every collaborator succeeds. *)
Definition calm : world :=
  mkWorld (fun _ op => Some (if String.eqb op "-" then (-1)%Z else 1%Z))
          (fun _ => Some 0%Z)
          (fun _ _ => true)
          (Some "Leaderboard").

(** A world in which the transport rejects every message. *)
Definition mute : world :=
  mkWorld (updateScore calm) (retrieveIndividualScore calm)
          (fun _ _ => false) (leaderboardMessage calm).

(** A world in which the transport rejects one message and nothing else
   fails. *)
Definition deaf_to (message : string) : world :=
  mkWorld (updateScore calm) (retrieveIndividualScore calm)
          (fun m _ => negb (String.eqb m message)) (leaderboardMessage calm).

(** A world in which the store rejects the mutations of one item and
    nothing else fails. *)
Definition locked (item : string) : world :=
  mkWorld (fun i op => if String.eqb i item then None else updateScore calm i op)
          (retrieveIndividualScore calm) (sendMessage calm) (leaderboardMessage calm).

(** An instance whose command resolver answers with the first word after
    the mention, whether the vocabulary has it or not. *)
Definition careless (rnd : nat) : deps :=
  mkDeps extractEvents extractPlusMinusEventData
         (fun text _ => extractCommand text
                          (match text with
                           | Some text => split_words [] (list_ascii_of_string text)
                           | None => []
                           end))
         extractUserID getRandomMessage getOperationName getMessageForIndividualScore
         "selfPlus" Lodash.camelCase rnd.

End Instance.

Definition message_event (text user chan : string) : event :=
  mkEvent (Some "message") None (Some text) user chan.

(* ================================================================== *)
(** ** Vocabulary of the properties *)

(** The event reaches the table entry [name]: it passes the three checks
    of [handleEvent] and its type normalises to [name]. *)
Definition routed_to (d : deps) (e : event) (name : string) : Prop :=
  exists ty txt,
    type e = Some ty /\ subtype e = None /\ text e = Some txt /\
    Js.trim txt <> "" /\ camelCase d ty = name.

(** The token does not normalise to a target and an operator. *)
Definition invalid_token (d : deps) (eventItem : string) : Prop :=
  Js.falsy (item (extractPlusMinusEventData d eventItem)) = true \/
  Js.falsy (operation (extractPlusMinusEventData d eventItem)) = true.

(** The tokens of the event's text. *)
Definition tokens (d : deps) (e : event) : list string :=
  match extractEvents d (text e) with
  | Some l => l
  | None => []
  end.

(** Whether the loop of [handlers.message] processes a token, given the
    items pushed so far. *)
Definition accepted (handled : list (option string)) (dt : plusMinusEventData) : bool :=
  negb (Js.falsy (item dt) || Js.falsy (operation dt)
        || (0 <? Js.indexOf handled (item dt))%Z).

(** The effects of one processed token, call by call. *)
Definition self_plus_effects (d : deps) (e : event) (i o : string) : list effect :=
  if String.eqb i (user e) && String.eqb "+" o
  then [ Enter HandleSelfPlus;
         ConsoleLog (user e +++ " tried to alter their own score.");
         SendMessage (getRandomMessage d (SELF d) (user e) None) (channel e) ]
  else [].

Definition retrieve_effects (e : event) (i o : string) : list effect :=
  if String.eqb "=" o
  then [ Enter HandleRetrieveScore;
         RetrieveIndividualScore i;
         Async (RetrieveScoreTask i (channel e)) ]
  else [].

Definition plus_minus_effects (e : event) (i o : string) : list effect :=
  [ Enter HandlePlusMinus; UpdateScore i o; Async (PlusMinusTask i o (channel e)) ].

Definition item_effects (d : deps) (e : event) (i o : string) : list effect :=
  self_plus_effects d e i o ++ retrieve_effects e i o ++ plus_minus_effects e i o.

(** The handler the table [appCommandHandlers] gives to a command. *)
Definition command_handler (c : string) : option handler :=
  if String.eqb c "leaderboard" then Some LeaderboardHandler
  else if String.eqb c "help" then Some SendHelp
  else if String.eqb c "thx" then Some SayThankyou
  else if String.eqb c "thanks" then Some SayThankyou
  else if String.eqb c "thankyou" then Some SayThankyou
  else if String.eqb c "++" then Some AppMentionPlusPlus
  else if String.eqb c "--" then Some AppMentionMinusMinus
  else None.

(** The targets whose score a trace mutates, in order. *)
Definition targets (tr : list effect) : list string := map fst (mutations tr).

(** The targets other than the value [first]. *)
Definition other_than (first : option string) (l : list string) : list string :=
  filter (fun x => negb (Js.strict_eq (Some x) first)) l.

(** The command of a mention event: the value of [appCommand] when it is
    truthy. *)
Definition resolved (d : deps) (e : event) : option string :=
  match extractCommand d (text e) validCommands with
  | Some c => if String.eqb c "" then None else Some c
  | None => None
  end.

(** The reply of the self-plus handler to the actor of [e]. *)
Definition self_plus_reply (d : deps) (e : event) : task :=
  Sending (getRandomMessage d (SELF d) (user e) None) (channel e).

(** The loop of [handlers.message] as a function of the tokens: the
    pairs (item, operation) it processes, given the items pushed so far. *)
Fixpoint batch (d : deps) (handled : list (option string)) (l : list string)
  : list (string * string) :=
  match l with
  | [] => []
  | eventItem :: l' =>
      let dt := extractPlusMinusEventData d eventItem in
      let rest := batch d (handled ++ [item dt]) l' in
      if accepted handled dt then
        match item dt, operation dt with
        | Some i, Some o => (i, o) :: rest
        | _, _ => rest
        end
      else rest
  end.

(** The task that [handlePlusMinus] returns for a pair. *)
Definition plus_minus_task (e : event) (p : string * string) : task :=
  PlusMinusTask (fst p) (snd p) (channel e).

Definition pair_effects (d : deps) (e : event) (p : string * string) : list effect :=
  item_effects d e (fst p) (snd p).

(** The data of a processed pair. *)
Definition pair_data (p : string * string) : plusMinusEventData :=
  mkData (Some (fst p)) (Some (snd p)).

(** [subseq l1 l2]: [l1] is [l2] with some elements left out, the order
    kept. *)
Inductive subseq {A : Type} : list A -> list A -> Prop :=
| subseq_nil : subseq [] []
| subseq_skip (x : A) (l1 l2 : list A) : subseq l1 l2 -> subseq l1 (x :: l2)
| subseq_take (x : A) (l1 l2 : list A) : subseq l1 l2 -> subseq (x :: l1) (x :: l2).


(** The text is made of white space only. *)
Fixpoint all_space (s : string) : bool :=
  match s with
  | EmptyString => true
  | String c s' => Js.is_space c && all_space s'
  end.


(** The reply of [handlePlusMinus] once the store has answered. *)
Definition plus_minus_reply (d : deps) (p : string * string) (score : Z) : string :=
  getRandomMessage d (getOperationName d (snd p)) (fst p) (Some score).

(** The store accepts the mutation and the transport its reply. *)
Definition pair_succeeds (d : deps) (w : world) (e : event) (p : string * string) : Prop :=
  exists score, updateScore w (fst p) (snd p) = Some score /\
                sendMessage w (plus_minus_reply d p score) (channel e) = true.

(** The property of C4, as the spec words it: the result for a message event
    without a valid token differs from the result for an event that is
    not handled. *)
Definition empty_batch_distinguishable (d : deps) (e unhandled : event) : Prop :=
  value (handleEvent d e) <> value (handleEvent d unhandled).

(* ================================================================== *)
(** ** The instances at work *)

Example camelCase_app_mention : Lodash.camelCase "app_mention" = "appMention".
Proof. reflexivity. Qed.

Example camelCase_App_Mention : Lodash.camelCase "App_Mention" = "appMention".
Proof. reflexivity. Qed.

Example camelCase_MESSAGE : Lodash.camelCase "MESSAGE" = "message".
Proof. reflexivity. Qed.

Example camelCase_constructor : Lodash.camelCase "constructor" = "constructor".
Proof. reflexivity. Qed.

Example camelCase_to_string : Lodash.camelCase "to_string" = "toString".
Proof. reflexivity. Qed.

Example camelCase_XMLHttpRequest : Lodash.camelCase "XMLHttpRequest" = "xmlHttpRequest".
Proof. reflexivity. Qed.

Example camelCase_foo_bar : Lodash.camelCase "--foo-bar--" = "fooBar".
Proof. reflexivity. Qed.

Example extractEvents_two :
  Instance.extractEvents (Some "<@U1>++ <@U2>--") = Some ["<@U1>++"; "<@U2>--"].
Proof. reflexivity. Qed.

Example extractEvents_spaced :
  Instance.extractEvents (Some "well done thing ++ !") = Some ["thing++"].
Proof. reflexivity. Qed.

Example extractEvents_none : Instance.extractEvents (Some "hello world") = Some [].
Proof. reflexivity. Qed.

Example extractData_user :
  Instance.extractPlusMinusEventData "<@U1>++" = mkData (Some "U1") (Some "+").
Proof. reflexivity. Qed.

Example extractData_thing :
  Instance.extractPlusMinusEventData "thing=" = mkData (Some "thing") (Some "=").
Proof. reflexivity. Qed.

Example extractCommand_leaderboard :
  Instance.extractCommand (Some "<@BOT> leaderboard") validCommands = Some "leaderboard".
Proof. reflexivity. Qed.

(* ================================================================== *)
(** ** The trace monad and the loop *)

Lemma trace_bind {A B} (m : M A) (k : A -> M B) :
  trace (bind m k) = trace m ++ trace (k (value m)).
Proof. destruct m as [a t1]. unfold bind, trace, value. cbn. destruct (k a). reflexivity. Qed.

Lemma value_bind {A B} (m : M A) (k : A -> M B) :
  value (bind m k) = value (k (value m)).
Proof. destruct m as [a t1]. unfold bind, value. cbn. destruct (k a). reflexivity. Qed.

Lemma launched_app (t1 t2 : list effect) : launched (t1 ++ t2) = launched t1 ++ launched t2.
Proof. apply flat_map_app. Qed.

Lemma mutations_app (t1 t2 : list effect) : mutations (t1 ++ t2) = mutations t1 ++ mutations t2.
Proof. apply flat_map_app. Qed.

Lemma entered_app (t1 t2 : list effect) : entered (t1 ++ t2) = entered t1 ++ entered t2.
Proof. apply flat_map_app. Qed.

Lemma calls_app (h : handler) (t1 t2 : list effect) :
  calls h (t1 ++ t2) = calls h t1 + calls h t2.
Proof. unfold calls. now rewrite entered_app, filter_app, length_app. Qed.

Lemma falsy_some (s : string) : s <> "" -> Js.falsy (Some s) = false.
Proof. intro H. cbn. now apply String.eqb_neq. Qed.

Section Loop.

Variable d : deps.
Variable e : event.

(** One turn of the loop, in closed form. *)
Lemma message_item_eq (st : loop_state) (eventItem : string) :
  message_item d e st eventItem =
  let dt := extractPlusMinusEventData d eventItem in
  let handled := alreadyBeenHandledItems st ++ [item dt] in
  if accepted (alreadyBeenHandledItems st) dt then
    match item dt, operation dt with
    | Some i, Some o =>
        (mkLoop (promises st ++ [PlusMinusTask i o (channel e)]) handled,
         item_effects d e i o)
    | _, _ => (mkLoop (promises st) handled, [])
    end
  else (mkLoop (promises st) handled, []).
Proof.
  unfold message_item, accepted.
  destruct (extractPlusMinusEventData d eventItem) as [it op]. cbn [item operation].
  destruct (Js.falsy it || Js.falsy op
            || (0 <? Js.indexOf (alreadyBeenHandledItems st) it)%Z);
    cbn -[String.eqb]; [reflexivity|].
  destruct it as [i|], op as [o|]; try reflexivity.
  unfold item_effects, self_plus_effects, retrieve_effects, plus_minus_effects.
  destruct (String.eqb i (user e) && String.eqb "+" o), (String.eqb "=" o); reflexivity.
Qed.

(** A token that is not accepted leaves the promises alone and has no
    effect. *)
Lemma message_item_rejected (st : loop_state) (eventItem : string) :
  accepted (alreadyBeenHandledItems st) (extractPlusMinusEventData d eventItem) = false ->
  message_item d e st eventItem =
  (mkLoop (promises st)
          (alreadyBeenHandledItems st ++ [item (extractPlusMinusEventData d eventItem)]),
   []).
Proof. intro H. rewrite message_item_eq. cbn zeta. now rewrite H. Qed.

Lemma invalid_not_accepted (handled : list (option string)) (eventItem : string) :
  invalid_token d eventItem ->
  accepted handled (extractPlusMinusEventData d eventItem) = false.
Proof.
  unfold invalid_token, accepted. intros [H|H]; rewrite H; cbn.
  - reflexivity.
  - now rewrite orb_true_r.
Qed.

(** With invalid tokens only, the loop launches nothing. *)
Lemma forEach_invalid (l : list string) :
  (forall tok, In tok l -> invalid_token d tok) ->
  forall st,
    forEach (message_item d e) l st =
    (mkLoop (promises st)
            (alreadyBeenHandledItems st
             ++ map (fun tok => item (extractPlusMinusEventData d tok)) l),
     []).
Proof.
  induction l as [|tok l IH]; intros Hall st.
  - cbn. rewrite app_nil_r. now destruct st.
  - cbn [forEach].
    rewrite (message_item_rejected st tok)
      by (apply invalid_not_accepted, Hall; now left).
    unfold bind at 1. rewrite IH by (intros; apply Hall; now right).
    cbn. now rewrite <- app_assoc.
Qed.

End Loop.

(* ================================================================== *)
(** ** Routing *)

Lemma handleEvent_message (d : deps) (e : event) :
  routed_to d e "message" -> handleEvent d e = handlers_message d e.
Proof.
  intros (ty & txt & Ht & Hs & Hx & Hne & Hc).
  unfold handleEvent. rewrite Ht, Hs, Hx.
  apply String.eqb_neq in Hne. rewrite Hne, Hc. reflexivity.
Qed.

Lemma handleEvent_appMention (d : deps) (e : event) :
  routed_to d e "appMention" -> handleEvent d e = handlers_appMention d e.
Proof.
  intros (ty & txt & Ht & Hs & Hx & Hne & Hc).
  unfold handleEvent. rewrite Ht, Hs, Hx.
  apply String.eqb_neq in Hne. rewrite Hne, Hc. reflexivity.
Qed.

(** A text with one valid token: the plus/minus handler is called
    whatever the operator is, after the self-plus or the retrieval
    handler when their test holds, and its task alone is returned. *)
Lemma handlers_message_single (d : deps) (e : event) (tok i o : string) :
  extractEvents d (text e) = Some [tok] ->
  extractPlusMinusEventData d tok = mkData (Some i) (Some o) ->
  i <> "" -> o <> "" ->
  handlers_message d e =
  (PromiseAll [PlusMinusTask i o (channel e)], Enter MessageHandler :: item_effects d e i o).
Proof.
  intros Hl Hd Hi Ho.
  unfold handlers_message. rewrite Hl. cbn [forEach].
  rewrite message_item_eq, Hd. cbn [item operation].
  unfold accepted. cbn [item operation alreadyBeenHandledItems].
  rewrite (falsy_some i Hi), (falsy_some o Ho).
  cbn -[item_effects]. now rewrite !app_nil_r.
Qed.

Lemma self_plus_effects_self (d : deps) (e : event) :
  self_plus_effects d e (user e) "+" =
  [ Enter HandleSelfPlus;
    ConsoleLog (user e +++ " tried to alter their own score.");
    SendMessage (getRandomMessage d (SELF d) (user e) None) (channel e) ].
Proof. unfold self_plus_effects. now rewrite String.eqb_refl. Qed.

Lemma self_plus_effects_other_op (d : deps) (e : event) (i o : string) :
  o <> "+" -> self_plus_effects d e i o = [].
Proof.
  intro H. unfold self_plus_effects.
  assert (String.eqb "+" o = false) as -> by (apply String.eqb_neq; congruence).
  now rewrite andb_false_r.
Qed.

(* ================================================================== *)
(** ** Message events with one token *)

(** C1.  For a message event whose actor is U and whose text holds the
    single token "<@U>++", the dispatch does enter the self-plus handler
    exactly once, but it then goes on to the plus/minus handler: the
    score store is asked for the mutation (U, '+').  The statement that no
    mutation is issued does not hold of the code. *)
Theorem C1_self_plus_still_mutates (d : deps) (e : event) (tok : string) :
  routed_to d e "message" ->
  user e <> "" ->
  extractEvents d (text e) = Some [tok] ->
  extractPlusMinusEventData d tok = mkData (Some (user e)) (Some "+") ->
  calls HandleSelfPlus (trace (handleEvent d e)) = 1 /\
  mutations (trace (handleEvent d e)) = [(user e, "+")] /\
  calls HandlePlusMinus (trace (handleEvent d e)) = 1.
Proof.
  intros Hr Hu Hl Hd.
  rewrite (handleEvent_message d e Hr).
  rewrite (handlers_message_single d e tok (user e) "+" Hl Hd Hu) by discriminate.
  unfold item_effects. rewrite self_plus_effects_self.
  cbn. repeat split; reflexivity.
Qed.

Lemma C1_self_plus_still_mutates_run :
  let e := message_event "<@U>++" "U" "C" in
  calls HandleSelfPlus (trace (handleEvent (Instance.instance 0) e)) = 1 /\
  mutations (trace (handleEvent (Instance.instance 0) e)) = [("U", "+")] /\
  calls HandlePlusMinus (trace (handleEvent (Instance.instance 0) e)) = 1.
Proof.
  apply (C1_self_plus_still_mutates (Instance.instance 0)
           (message_event "<@U>++" "U" "C") "<@U>++").
  - exists "message", "<@U>++". repeat split; try reflexivity. discriminate.
  - discriminate.
  - reflexivity.
  - reflexivity.
Defined.

(** C2.  For a message event whose text holds the single token "thing=",
    the dispatch enters the score-retrieval handler and reads the score of
    the item, but it then goes on to the plus/minus handler: the score
    store is asked for the mutation (thing, '=').  The statement that no
    mutation call is made does not hold of the code. *)
Theorem C2_retrieval_still_mutates (d : deps) (e : event) (tok i : string) :
  routed_to d e "message" ->
  i <> "" ->
  extractEvents d (text e) = Some [tok] ->
  extractPlusMinusEventData d tok = mkData (Some i) (Some "=") ->
  calls HandleRetrieveScore (trace (handleEvent d e)) = 1 /\
  retrievals (trace (handleEvent d e)) = [i] /\
  mutations (trace (handleEvent d e)) = [(i, "=")].
Proof.
  intros Hr Hi Hl Hd.
  rewrite (handleEvent_message d e Hr).
  rewrite (handlers_message_single d e tok i "=" Hl Hd Hi) by discriminate.
  unfold item_effects. rewrite self_plus_effects_other_op by discriminate.
  cbn. repeat split; reflexivity.
Qed.

Lemma C2_retrieval_still_mutates_run :
  let e := message_event "thing=" "U" "C" in
  calls HandleRetrieveScore (trace (handleEvent (Instance.instance 0) e)) = 1 /\
  retrievals (trace (handleEvent (Instance.instance 0) e)) = ["thing"] /\
  mutations (trace (handleEvent (Instance.instance 0) e)) = [("thing", "=")].
Proof.
  apply (C2_retrieval_still_mutates (Instance.instance 0)
           (message_event "thing=" "U" "C") "thing=" "thing").
  - exists "message", "thing=". repeat split; try reflexivity. discriminate.
  - discriminate.
  - reflexivity.
  - reflexivity.
Defined.

(** What one processed token asks of the store and of the handlers. *)
Lemma mutations_item_effects (d : deps) (e : event) (i o : string) :
  mutations (item_effects d e i o) = [(i, o)].
Proof.
  unfold item_effects, self_plus_effects, retrieve_effects.
  destruct (String.eqb i (user e) && String.eqb "+" o), (String.eqb "=" o); reflexivity.
Qed.

Lemma calls_self_plus_item_effects (d : deps) (e : event) (i o : string) :
  calls HandleSelfPlus (item_effects d e i o) =
  if String.eqb i (user e) && String.eqb "+" o then 1 else 0.
Proof.
  unfold item_effects, self_plus_effects, retrieve_effects.
  destruct (String.eqb i (user e) && String.eqb "+" o), (String.eqb "=" o); reflexivity.
Qed.


(** The self-plus handler is entered by the loop only for a token whose
    target is the actor and whose operator is [+]. *)
Lemma forEach_self_plus (d : deps) (e : event) (l : list string) :
  forall st,
    0 < calls HandleSelfPlus (trace (forEach (message_item d e) l st)) ->
    exists tok, In tok l /\
                extractPlusMinusEventData d tok = mkData (Some (user e)) (Some "+").
Proof.
  induction l as [|tok l IH]; intros st H.
  - cbn in H. lia.
  - cbn [forEach] in H. rewrite trace_bind, calls_app in H.
    destruct (Nat.eq_dec (calls HandleSelfPlus (trace (message_item d e st tok))) 0)
      as [Hz|Hnz].
    + rewrite Hz in H. apply IH in H. destruct H as (tok' & Hin & Hd).
      exists tok'. split; [now right | exact Hd].
    + exists tok. split; [now left|].
      rewrite message_item_eq in Hnz. cbn zeta in Hnz.
      destruct (extractPlusMinusEventData d tok) as [it op]. cbn [item operation] in Hnz.
      destruct (accepted (alreadyBeenHandledItems st) (mkData it op));
        [|cbn in Hnz; congruence].
      destruct it as [i|], op as [o|]; try (cbn in Hnz; congruence).
      unfold trace in Hnz. cbn [snd] in Hnz.
      rewrite calls_self_plus_item_effects in Hnz.
      destruct (String.eqb i (user e) && String.eqb "+" o) eqn:Hc; [|congruence].
      apply andb_true_iff in Hc. destruct Hc as [Hi Ho].
      apply String.eqb_eq in Hi, Ho. now subst.
Qed.

(** C6.  For a message event whose actor is U and whose text holds the
    single token "<@U>--", the dispatch enters the ordinary plus/minus
    handler and not the self-plus handler, and asks the score store for
    the mutation (U, '-'); and, for every message event, the self-plus
    handler is entered only when some token has the actor as its target
    and '+' as its operation. *)
Theorem C6_self_minus_is_ordinary (d : deps) (e : event) (tok : string) :
  routed_to d e "message" ->
  user e <> "" ->
  extractEvents d (text e) = Some [tok] ->
  extractPlusMinusEventData d tok = mkData (Some (user e)) (Some "-") ->
  (calls HandleSelfPlus (trace (handleEvent d e)) = 0 /\
   calls HandlePlusMinus (trace (handleEvent d e)) = 1 /\
   mutations (trace (handleEvent d e)) = [(user e, "-")] /\
   value (handleEvent d e) = PromiseAll [PlusMinusTask (user e) "-" (channel e)]) /\
  (forall e',
     routed_to d e' "message" ->
     0 < calls HandleSelfPlus (trace (handleEvent d e')) ->
     exists tok', In tok' (tokens d e') /\
                  extractPlusMinusEventData d tok' = mkData (Some (user e')) (Some "+")).
Proof.
  intros Hr Hu Hl Hd. split.
  - rewrite (handleEvent_message d e Hr).
    rewrite (handlers_message_single d e tok (user e) "-" Hl Hd Hu) by discriminate.
    unfold item_effects. rewrite self_plus_effects_other_op by discriminate.
    cbn. repeat split; reflexivity.
  - intros e' Hr' H. rewrite (handleEvent_message d e' Hr') in H.
    unfold handlers_message, tokens in *.
    rewrite !trace_bind, !calls_app in H. cbn [trace emit snd calls] in H.
    destruct (extractEvents d (text e')) as [l|].
    + destruct (forEach (message_item d e') l (mkLoop [] []))
        as [st tr] eqn:Hf.
      assert (0 < calls HandleSelfPlus tr) as Htr.
      { cbn [value fst trace snd] in H.
        destruct (0 <? length (promises st))%nat; cbn in H; lia. }
      apply (forEach_self_plus d e' l (mkLoop [] [])). now rewrite Hf.
    + cbn in H. lia.
Qed.

Lemma C6_self_minus_is_ordinary_run :
  let d := Instance.instance 0 in
  let e := message_event "<@U>--" "U" "C" in
  (calls HandleSelfPlus (trace (handleEvent d e)) = 0 /\
   calls HandlePlusMinus (trace (handleEvent d e)) = 1 /\
   mutations (trace (handleEvent d e)) = [("U", "-")] /\
   value (handleEvent d e) = PromiseAll [PlusMinusTask "U" "-" "C"]) /\
  (forall e',
     routed_to d e' "message" ->
     0 < calls HandleSelfPlus (trace (handleEvent d e')) ->
     exists tok', In tok' (tokens d e') /\
                  extractPlusMinusEventData d tok' = mkData (Some (user e')) (Some "+")).
Proof.
  apply (C6_self_minus_is_ordinary (Instance.instance 0)
           (message_event "<@U>--" "U" "C") "<@U>--").
  - exists "message", "<@U>--". repeat split; try reflexivity. discriminate.
  - discriminate.
  - reflexivity.
  - reflexivity.
Defined.

(* ================================================================== *)
(** ** Duplicate targets *)

(** A text with two valid tokens: the second token finds at most the
    index 0 in [alreadyBeenHandledItems], the test [indexOf( item ) > 0]
    fails, and both tokens are processed, whether their targets differ or
    not. *)
Lemma handlers_message_pair (d : deps) (e : event) (t1 t2 a1 o1 a2 o2 : string) :
  extractEvents d (text e) = Some [t1; t2] ->
  extractPlusMinusEventData d t1 = mkData (Some a1) (Some o1) ->
  extractPlusMinusEventData d t2 = mkData (Some a2) (Some o2) ->
  a1 <> "" -> o1 <> "" -> a2 <> "" -> o2 <> "" ->
  handlers_message d e =
  (PromiseAll [PlusMinusTask a1 o1 (channel e); PlusMinusTask a2 o2 (channel e)],
   Enter MessageHandler :: item_effects d e a1 o1 ++ item_effects d e a2 o2).
Proof.
  intros Hl H1 H2 Ha1 Ho1 Ha2 Ho2.
  unfold handlers_message. rewrite Hl. cbn [forEach].
  rewrite message_item_eq, H1. cbn [item operation].
  unfold accepted at 1. cbn [item operation alreadyBeenHandledItems].
  rewrite (falsy_some a1 Ha1), (falsy_some o1 Ho1).
  cbn -[item_effects message_item].
  rewrite message_item_eq, H2. cbn [item operation].
  unfold accepted. cbn [item operation alreadyBeenHandledItems].
  rewrite (falsy_some a2 Ha2), (falsy_some o2 Ho2).
  unfold Js.indexOf. cbn [Js.indexOf_from Js.strict_eq].
  destruct (String.eqb a1 a2); cbn -[item_effects]; now rewrite !app_nil_r.
Qed.

(** C3.  For a message event whose text mentions one target twice, as its
    first two tokens, the processed batch holds two items for that
    target: the operation of the duplicate is applied after the
    operation of the first occurrence.  The statement that the batch holds
    exactly one item for the target does not hold of the code. *)
Theorem C3_duplicate_of_first_target_applied
        (d : deps) (e : event) (t1 t2 a o1 o2 : string) :
  routed_to d e "message" ->
  extractEvents d (text e) = Some [t1; t2] ->
  extractPlusMinusEventData d t1 = mkData (Some a) (Some o1) ->
  extractPlusMinusEventData d t2 = mkData (Some a) (Some o2) ->
  a <> "" -> o1 <> "" -> o2 <> "" ->
  value (handleEvent d e) =
    PromiseAll [PlusMinusTask a o1 (channel e); PlusMinusTask a o2 (channel e)] /\
  mutations (trace (handleEvent d e)) = [(a, o1); (a, o2)].
Proof.
  intros Hr Hl H1 H2 Ha Ho1 Ho2.
  rewrite (handleEvent_message d e Hr).
  rewrite (handlers_message_pair d e t1 t2 a o1 a o2 Hl H1 H2 Ha Ho1 Ha Ho2).
  split; [reflexivity|].
  unfold trace. cbn [snd].
  change (Enter MessageHandler :: ?l) with ([Enter MessageHandler] ++ l).
  now rewrite !mutations_app, !mutations_item_effects.
Qed.

Lemma C3_duplicate_of_first_target_applied_run :
  let d := Instance.instance 0 in
  let e := message_event "thing++ thing--" "U" "C" in
  value (handleEvent d e) =
    PromiseAll [PlusMinusTask "thing" "+" "C"; PlusMinusTask "thing" "-" "C"] /\
  mutations (trace (handleEvent d e)) = [("thing", "+"); ("thing", "-")].
Proof.
  apply (C3_duplicate_of_first_target_applied (Instance.instance 0)
           (message_event "thing++ thing--" "U" "C") "thing++" "thing--"
           "thing" "+" "-").
  - exists "message", "thing++ thing--". repeat split; try reflexivity. discriminate.
  - reflexivity.
  - reflexivity.
  - reflexivity.
  - discriminate.
  - discriminate.
  - discriminate.
Defined.

(** A token is rejected as soon as its target already stands at an index
    above 0 of the items pushed so far. *)
Lemma later_duplicate_rejected (handled : list (option string)) (dt : plusMinusEventData) :
  (0 < Js.indexOf handled (item dt))%Z -> accepted handled dt = false.
Proof.
  intro H. unfold accepted. apply Z.ltb_lt in H. rewrite H.
  now rewrite orb_true_r.
Qed.

(** The duplicate is dropped when its target was first met after the
    first token. *)
Example duplicate_of_second_target_dropped :
  mutations (trace (handleEvent (Instance.instance 0)
                                (message_event "other++ thing++ thing--" "U" "C")))
  = [("other", "+"); ("thing", "+")].
Proof. reflexivity. Qed.

Lemma strict_eq_true (a b : option string) : Js.strict_eq a b = true <-> a = b.
Proof.
  destruct a as [x|], b as [y|]; cbn; try (split; congruence).
  rewrite String.eqb_eq. split; congruence.
Qed.

Lemma indexOf_from_found (x : option string) (l : list (option string)) :
  forall i, In x l -> (i <= Js.indexOf_from i x l)%Z.
Proof.
  induction l as [|y l IH]; intros i Hin; [destruct Hin|].
  cbn. destruct (Js.strict_eq y x) eqn:Hy; [lia|].
  destruct Hin as [->|Hin].
  - assert (Js.strict_eq x x = true) by now apply strict_eq_true.
    congruence.
  - specialize (IH (i + 1)%Z Hin). lia.
Qed.

(** An accepted token whose target is not the first item pushed has a
    target that was never pushed. *)
Lemma accepted_fresh (h0 : option string) (rest : list (option string))
      (dt : plusMinusEventData) :
  accepted (h0 :: rest) dt = true -> item dt <> h0 -> ~ In (item dt) rest.
Proof.
  unfold accepted, Js.indexOf. intros Hacc Hne Hin.
  apply negb_true_iff, orb_false_iff in Hacc. destruct Hacc as [_ Hidx].
  apply Z.ltb_ge in Hidx. cbn in Hidx.
  destruct (Js.strict_eq h0 (item dt)) eqn:Hh.
  - apply strict_eq_true in Hh. congruence.
  - pose proof (indexOf_from_found (item dt) rest 1%Z Hin). cbn in H. lia.
Qed.

Lemma other_than_app (h : option string) (a b : list string) :
  other_than h (a ++ b) = other_than h a ++ other_than h b.
Proof. apply filter_app. Qed.

Lemma targets_app (t1 t2 : list effect) : targets (t1 ++ t2) = targets t1 ++ targets t2.
Proof. unfold targets. now rewrite mutations_app, map_app. Qed.

Lemma targets_item_effects (d : deps) (e : event) (i o : string) :
  targets (item_effects d e i o) = [i].
Proof. unfold targets. now rewrite mutations_item_effects. Qed.

(** Once a first item [h0] has been pushed, the targets that the loop goes
    on to process and that differ from [h0] are new and pairwise
    distinct. *)
Lemma forEach_targets_fresh (d : deps) (e : event) (h0 : option string)
      (l : list string) :
  forall st rest,
    alreadyBeenHandledItems st = h0 :: rest ->
    NoDup (other_than h0 (targets (trace (forEach (message_item d e) l st)))) /\
    (forall x, In x (other_than h0 (targets (trace (forEach (message_item d e) l st)))) ->
               ~ In (Some x) rest).
Proof.
  induction l as [|tok l IH]; intros st rest Hst.
  - cbn. split; [constructor | intros x []].
  - cbn [forEach]. rewrite trace_bind, targets_app, other_than_app.
    rewrite message_item_eq. cbn zeta.
    set (dt := extractPlusMinusEventData d tok).
    set (after := fun P => other_than h0 (targets (trace
                   (forEach (message_item d e) l
                            (mkLoop P (alreadyBeenHandledItems st ++ [item dt])))))).
    assert (forall P, NoDup (after P) /\
                      forall x, In x (after P) -> ~ In (Some x) (rest ++ [item dt]))
      as Hnext.
    { intro P. apply IH. cbn. now rewrite Hst. }
    assert (forall P, NoDup ([] ++ after P) /\
                      forall x, In x ([] ++ after P) -> ~ In (Some x) rest)
      as Hskip.
    { intro P. destruct (Hnext P) as [Hnd Hfr]. split; [exact Hnd|].
      intros x Hx Hin. apply (Hfr x Hx). apply in_or_app. now left. }
    destruct (accepted (alreadyBeenHandledItems st) dt) eqn:Hacc; [|apply Hskip].
    destruct (item dt) as [i|] eqn:Hi; [|apply Hskip].
    destruct (operation dt) as [o|]; [|apply Hskip].
    cbn [trace value fst snd]. rewrite targets_item_effects.
    cbn [other_than filter].
    destruct (Js.strict_eq (Some i) h0) eqn:Hh; cbn [negb]; [apply Hskip|].
    destruct (Hnext (promises st ++ [PlusMinusTask i o (channel e)])) as [Hnd Hfr].
    assert (Some i <> h0) as Hne.
    { intro Heq. apply strict_eq_true in Heq. congruence. }
    split.
    + cbn. constructor; [|exact Hnd].
      intro Hin. apply (Hfr i Hin). apply in_or_app. right. now left.
    + intros x [<-|Hx].
      * rewrite Hst in Hacc. rewrite <- Hi. apply (accepted_fresh h0 rest dt Hacc).
        now rewrite Hi.
      * intro Hin. apply (Hfr x Hx). apply in_or_app. now left.
Qed.

(** The trace of [handlers.message] is the trace of its loop. *)
Lemma handlers_message_trace (d : deps) (e : event) :
  trace (handlers_message d e) =
  Enter MessageHandler :: trace (forEach (message_item d e) (tokens d e) (mkLoop [] [])).
Proof.
  unfold handlers_message, tokens. rewrite trace_bind.
  cbn [emit trace value fst snd app]. f_equal.
  destruct (extractEvents d (text e)) as [l|].
  - change (snd ?m) with (trace m). rewrite trace_bind.
    destruct (0 <? length _)%nat; cbn; now rewrite app_nil_r.
  - reflexivity.
Qed.

(** X8.  What the duplicate test does achieve: among the targets mutated
    for one message, only the item of the first token can occur more than
    once; every other target is mutated at most once. *)
Theorem targets_unique_but_first (d : deps) (e : event) (tok : string) (l : list string) :
  tokens d e = tok :: l ->
  NoDup (other_than (item (extractPlusMinusEventData d tok))
                    (targets (trace (handlers_message d e)))).
Proof.
  intro Hl. rewrite handlers_message_trace, Hl.
  change (Enter MessageHandler :: ?t) with ([Enter MessageHandler] ++ t).
  rewrite targets_app. cbn [targets mutations flat_map mutation_of map app].
  fold (targets (trace (forEach (message_item d e) (tok :: l) (mkLoop [] [])))).
  cbn [forEach]. rewrite trace_bind, targets_app.
  set (h0 := item (extractPlusMinusEventData d tok)).
  rewrite other_than_app.
  assert (other_than h0 (targets (trace (message_item d e (mkLoop [] []) tok))) = []) as ->.
  { rewrite message_item_eq. cbn zeta. fold h0.
    destruct (accepted _ _); [|reflexivity].
    destruct h0 as [i|] eqn:Hh; [|reflexivity].
    destruct (operation _) as [o|]; [|reflexivity].
    cbn [trace snd]. rewrite targets_item_effects. cbn [other_than filter].
    assert (Js.strict_eq (Some i) (Some i) = true) as -> by now apply strict_eq_true.
    reflexivity. }
  cbn [app].
  apply (forEach_targets_fresh d e h0 l _ []).
  rewrite message_item_eq. cbn zeta. fold h0.
  destruct (accepted _ _); [|reflexivity].
  destruct h0; [|reflexivity].
  destruct (operation _); reflexivity.
Qed.

(* ================================================================== *)
(** ** Texts without a valid token *)

(** C4, counterexample.  The message event with the text "hello" has no
    token and the event without a type is not handled; [handleEvent]
    returns [false] for both. *)
Lemma C4_empty_batch_not_distinguishable :
  let d := Instance.instance 0 in
  let e := message_event "hello" "U" "C" in
  let unhandled := mkEvent None None (Some "hello") "U" "C" in
  routed_to d e "message" /\ tokens d e = [] /\
  type unhandled = None /\
  ~ empty_batch_distinguishable d e unhandled.
Proof.
  cbv zeta. repeat split.
  - exists "message", "hello". repeat split; try reflexivity. discriminate.
  - intro H. apply H. reflexivity.
Qed.

(** C4, amended.  For every message event whose text yields no valid
    token, the dispatch enters no reply handler, launches no reply task
    and returns [false], which is also the value returned for an event
    that is not handled; only the latter logs a diagnostic. *)
Theorem C4_empty_batch_returns_false (d : deps) (e : event) :
  routed_to d e "message" ->
  (forall tok, In tok (tokens d e) -> invalid_token d tok) ->
  value (handleEvent d e) = JsFalse /\
  launched (trace (handleEvent d e)) = [] /\
  entered (trace (handleEvent d e)) = [MessageHandler] /\
  warnings (trace (handleEvent d e)) = [] /\
  (forall unhandled, type unhandled = None ->
                     value (handleEvent d unhandled) = value (handleEvent d e) /\
                     warnings (trace (handleEvent d unhandled)) = ["Event data missing"]).
Proof.
  intros Hr Hall.
  assert (handleEvent d e = (JsFalse, [Enter MessageHandler])) as ->.
  { rewrite (handleEvent_message d e Hr). unfold handlers_message, tokens in *.
    destruct (extractEvents d (text e)) as [l|].
    - rewrite (forEach_invalid d e l Hall). reflexivity.
    - reflexivity. }
  repeat split; try reflexivity.
  - unfold handleEvent. now rewrite H.
  - unfold handleEvent. now rewrite H.
Qed.

Lemma C4_empty_batch_returns_false_run :
  let d := Instance.instance 0 in
  let e := message_event "hello world" "U" "C" in
  value (handleEvent d e) = JsFalse /\
  launched (trace (handleEvent d e)) = [] /\
  entered (trace (handleEvent d e)) = [MessageHandler] /\
  warnings (trace (handleEvent d e)) = [] /\
  (forall unhandled, type unhandled = None ->
                     value (handleEvent d unhandled) = value (handleEvent d e) /\
                     warnings (trace (handleEvent d unhandled)) = ["Event data missing"]).
Proof.
  apply (C4_empty_batch_returns_false (Instance.instance 0)
           (message_event "hello world" "U" "C")).
  - exists "message", "hello world". repeat split; try reflexivity. discriminate.
  - intros tok H. vm_compute in H. destruct H.
Defined.

(* ================================================================== *)
(** ** The aggregate returned for a message event *)

(** C5.  For a message event whose actor is U and whose text holds the
    single token "<@U>++", the reply task launched by the self-plus
    handler is not among the tasks of the returned aggregate: in a world
    where that reply is rejected and the plus/minus task is fulfilled,
    the aggregate is fulfilled.  The statement that every launched reply task
    is part of the aggregate does not hold of the code. *)
Theorem C5_self_plus_reply_outside_aggregate
        (d : deps) (e : event) (tok : string) (w : world) :
  routed_to d e "message" ->
  user e <> "" ->
  extractEvents d (text e) = Some [tok] ->
  extractPlusMinusEventData d tok = mkData (Some (user e)) (Some "+") ->
  fulfilled d w (self_plus_reply d e) = false ->
  fulfilled d w (PlusMinusTask (user e) "+" (channel e)) = true ->
  In (self_plus_reply d e) (launched (trace (handleEvent d e))) /\
  ~ In (self_plus_reply d e) (aggregated (value (handleEvent d e))) /\
  outcome d w (value (handleEvent d e)) = Some true.
Proof.
  intros Hr Hu Hl Hd Hfail Hok.
  rewrite (handleEvent_message d e Hr).
  rewrite (handlers_message_single d e tok (user e) "+" Hl Hd Hu) by discriminate.
  unfold item_effects. rewrite self_plus_effects_self.
  cbn [value trace fst snd aggregated outcome forallb].
  repeat split.
  - cbn. now left.
  - unfold self_plus_reply. intros [H|[]]. discriminate.
  - now rewrite Hok.
Qed.

Lemma C5_self_plus_reply_outside_aggregate_run :
  let d := Instance.instance 0 in
  let e := message_event "<@U>++" "U" "C" in
  In (self_plus_reply d e) (launched (trace (handleEvent d e))) /\
  ~ In (self_plus_reply d e) (aggregated (value (handleEvent d e))) /\
  outcome d (Instance.deaf_to "selfPlus <@U> ") (value (handleEvent d e)) = Some true.
Proof.
  apply (C5_self_plus_reply_outside_aggregate (Instance.instance 0)
           (message_event "<@U>++" "U" "C") "<@U>++"
           (Instance.deaf_to "selfPlus <@U> ")).
  - exists "message", "<@U>++". repeat split; try reflexivity. discriminate.
  - discriminate.
  - reflexivity.
  - reflexivity.
  - reflexivity.
  - reflexivity.
Defined.

(** The same holds of the retrieval task of a token with the operator
    [=]: it is launched and left out of the aggregate. *)
Example retrieval_task_outside_aggregate :
  let r := handleEvent (Instance.instance 0) (message_event "thing=" "U" "C") in
  launched (trace r) = [RetrieveScoreTask "thing" "C"; PlusMinusTask "thing" "=" "C"] /\
  aggregated (value r) = [PlusMinusTask "thing" "=" "C"].
Proof. split; reflexivity. Qed.

(* ================================================================== *)
(** ** End to end: two targets *)

(** C9.  For the event of type "message" with the text "<@U1>++ <@U2>--",
    the actor U0 and the channel C1, the dispatch launches exactly two
    reply tasks, the mutation (U1, '+') and then the mutation (U2, '-'),
    in the order of the text; the aggregate is fulfilled when both tasks
    are, and the end of each task depends on the answers of the
    collaborators to that task alone. *)
Theorem C9_two_targets_in_text_order (d : deps) (t1 t2 : string) :
  let e := mkEvent (Some "message") None (Some "<@U1>++ <@U2>--") "U0" "C1" in
  let first := PlusMinusTask "U1" "+" "C1" in
  let second := PlusMinusTask "U2" "-" "C1" in
  camelCase d "message" = "message" ->
  extractEvents d (Some "<@U1>++ <@U2>--") = Some [t1; t2] ->
  extractPlusMinusEventData d t1 = mkData (Some "U1") (Some "+") ->
  extractPlusMinusEventData d t2 = mkData (Some "U2") (Some "-") ->
  value (handleEvent d e) = PromiseAll [first; second] /\
  launched (trace (handleEvent d e)) = [first; second] /\
  mutations (trace (handleEvent d e)) = [("U1", "+"); ("U2", "-")] /\
  entered (trace (handleEvent d e)) = [MessageHandler; HandlePlusMinus; HandlePlusMinus] /\
  (forall w, outcome d w (value (handleEvent d e))
             = Some (fulfilled d w first && fulfilled d w second)) /\
  (forall w w',
     updateScore w "U2" "-" = updateScore w' "U2" "-" ->
     (forall m, sendMessage w m "C1" = sendMessage w' m "C1") ->
     complete d w second = complete d w' second) /\
  (forall w w',
     updateScore w "U1" "+" = updateScore w' "U1" "+" ->
     (forall m, sendMessage w m "C1" = sendMessage w' m "C1") ->
     complete d w first = complete d w' first).
Proof.
  intros e first second Hc Hl H1 H2.
  assert (routed_to d e "message") as Hr.
  { exists "message", "<@U1>++ <@U2>--". repeat split; try reflexivity; try exact Hc.
    discriminate. }
  rewrite (handleEvent_message d e Hr).
  rewrite (handlers_message_pair d e t1 t2 "U1" "+" "U2" "-" Hl H1 H2)
    by discriminate.
  repeat split.
  - intro w. cbn. now rewrite andb_true_r.
  - intros w w' Hu Hs. cbn. rewrite Hu.
    destruct (updateScore w' "U2" "-"); [|reflexivity]. now rewrite Hs.
  - intros w w' Hu Hs. cbn. rewrite Hu.
    destruct (updateScore w' "U1" "+"); [|reflexivity]. now rewrite Hs.
Qed.

Lemma C9_two_targets_in_text_order_run :
  let d := Instance.instance 0 in
  let e := mkEvent (Some "message") None (Some "<@U1>++ <@U2>--") "U0" "C1" in
  let first := PlusMinusTask "U1" "+" "C1" in
  let second := PlusMinusTask "U2" "-" "C1" in
  value (handleEvent d e) = PromiseAll [first; second] /\
  launched (trace (handleEvent d e)) = [first; second] /\
  mutations (trace (handleEvent d e)) = [("U1", "+"); ("U2", "-")] /\
  entered (trace (handleEvent d e)) = [MessageHandler; HandlePlusMinus; HandlePlusMinus] /\
  (forall w, outcome d w (value (handleEvent d e))
             = Some (fulfilled d w first && fulfilled d w second)) /\
  (forall w w',
     updateScore w "U2" "-" = updateScore w' "U2" "-" ->
     (forall m, sendMessage w m "C1" = sendMessage w' m "C1") ->
     complete d w second = complete d w' second) /\
  (forall w w',
     updateScore w "U1" "+" = updateScore w' "U1" "+" ->
     (forall m, sendMessage w m "C1" = sendMessage w' m "C1") ->
     complete d w first = complete d w' first).
Proof.
  apply (C9_two_targets_in_text_order (Instance.instance 0) "<@U1>++" "<@U2>--");
    reflexivity.
Defined.

(** A rejected mutation of U1 fails the aggregate and leaves the task of
    U2 fulfilled, its reply sent. *)
Example second_task_survives_first :
  let d := Instance.instance 0 in
  let w := Instance.locked "U1" in
  let r := handleEvent d (mkEvent (Some "message") None (Some "<@U1>++ <@U2>--") "U0" "C1") in
  outcome d w (value r) = Some false /\
  complete d w (PlusMinusTask "U1" "+" "C1") = (false, []) /\
  complete d w (PlusMinusTask "U2" "-" "C1") = (true, [SendMessage "minus <@U2> -I" "C1"]).
Proof. repeat split; reflexivity. Qed.

(* ================================================================== *)
(** ** Events that are not handled *)

(** The four exits of [handleEvent] that return [false]: each logs one
    warning, enters no handler and launches no reply. *)
Lemma handleEvent_not_handled (d : deps) (e : event) :
  type e = None \/
  subtype e <> None \/
  text e = None \/
  (exists txt, text e = Some txt /\ Js.trim txt = "") \/
  (exists ty, type e = Some ty /\ handlers d (camelCase d ty) = None) ->
  exists diagnostic, handleEvent d e = (JsFalse, [ConsoleWarn diagnostic]).
Proof.
  unfold handleEvent.
  intros [H|[H|[H|[(txt & H & Hb)|(ty & H & Hh)]]]].
  - rewrite H. now eexists.
  - destruct (type e); [|now eexists].
    destruct (subtype e); [now eexists | congruence].
  - destruct (type e); [|now eexists].
    destruct (subtype e); [now eexists|]. rewrite H. now eexists.
  - destruct (type e); [|now eexists].
    destruct (subtype e); [now eexists|]. rewrite H, Hb. now eexists.
  - rewrite H. destruct (subtype e); [now eexists|].
    destruct (match text e with
              | Some text0 => String.eqb (Js.trim text0) ""
              | None => true
              end); [now eexists|].
    rewrite Hh. now eexists.
Qed.

(** A type is rejected as unknown exactly when its normalised name is
    neither an own entry of [handlers] nor a method that the table
    inherits. *)
Lemma handlers_none (d : deps) (name : string) :
  handlers d name = None <->
  name <> "message" /\ name <> "appMention" /\
  match object_prototype name with
  | Some p => is_function p = false
  | None => True
  end.
Proof.
  unfold handlers.
  destruct (String.eqb_spec name "message") as [->|Hm].
  - split; [discriminate | intros [H _]; congruence].
  - destruct (String.eqb_spec name "appMention") as [->|Ha].
    + split; [discriminate | intros (_ & H & _); congruence].
    + destruct (object_prototype name) as [p|].
      * destruct (is_function p); split; try discriminate; try tauto.
        intros (_ & _ & H). discriminate.
      * tauto.
Qed.

(** C7.  An event that passes the three checks and whose type normalises
    to "constructor", the name of a method that [handlers] inherits, is
    not rejected: [handleEvent] returns the event object, not [false],
    and logs no diagnostic.  The statement that every unrecognized type yields
    [false] with a diagnostic does not hold of the code. *)
Theorem C7_inherited_method_name_not_rejected (d : deps) (e : event) :
  routed_to d e "constructor" ->
  value (handleEvent d e) = EventObject e /\
  value (handleEvent d e) <> JsFalse /\
  warnings (trace (handleEvent d e)) = [] /\
  entered (trace (handleEvent d e)) = [] /\
  launched (trace (handleEvent d e)) = [].
Proof.
  intros (ty & txt & Ht & Hs & Hx & Hne & Hc).
  assert (handleEvent d e = (EventObject e, [])) as ->.
  { unfold handleEvent. rewrite Ht, Hs, Hx.
    apply String.eqb_neq in Hne. rewrite Hne, Hc. reflexivity. }
  repeat split. discriminate.
Qed.

Lemma C7_inherited_method_name_not_rejected_run :
  let d := Instance.instance 0 in
  let e := mkEvent (Some "constructor") None (Some "hello") "U" "C" in
  value (handleEvent d e) = EventObject e /\
  value (handleEvent d e) <> JsFalse /\
  warnings (trace (handleEvent d e)) = [] /\
  entered (trace (handleEvent d e)) = [] /\
  launched (trace (handleEvent d e)) = [].
Proof.
  apply (C7_inherited_method_name_not_rejected (Instance.instance 0)
           (mkEvent (Some "constructor") None (Some "hello") "U" "C")).
  exists "constructor", "hello". repeat split; try reflexivity. discriminate.
Defined.

(** The rejections of a missing type, a subtype and a blank text, on the
    instance. *)
Example missing_type_rejected :
  handleEvent (Instance.instance 0) (mkEvent None None (Some "thing++") "U" "C")
  = (JsFalse, [ConsoleWarn "Event data missing"]).
Proof. reflexivity. Qed.

Example subtype_rejected :
  handleEvent (Instance.instance 0)
              (mkEvent (Some "message") (Some "bot_message") (Some "thing++") "U" "C")
  = (JsFalse, [ConsoleWarn "Unsupported event subtype: bot_message"]).
Proof. reflexivity. Qed.

Example blank_text_rejected :
  handleEvent (Instance.instance 0) (mkEvent (Some "message") None (Some "   ") "U" "C")
  = (JsFalse, [ConsoleWarn "Event text missing"]).
Proof. reflexivity. Qed.

Example unknown_type_rejected :
  handleEvent (Instance.instance 0) (mkEvent (Some "reaction_added") None (Some "x") "U" "C")
  = (JsFalse, [ConsoleWarn "Invalid event received: reaction_added"]).
Proof. reflexivity. Qed.

(* ================================================================== *)
(** ** Routing by the normalised type *)

(** Type strings that differ from the table's keys reach their handler
    through [camelCase]. *)
Example app_mention_routed :
  forall e, type e = Some "app_mention" -> subtype e = None ->
            text e = Some "<@BOT> help" ->
            handleEvent (Instance.instance 0) e = handlers_appMention (Instance.instance 0) e.
Proof.
  intros e Ht Hs Hx. apply handleEvent_appMention.
  exists "app_mention", "<@BOT> help". repeat split; try assumption. discriminate.
Qed.

Example App_Mention_routed :
  forall e, type e = Some "App_Mention" -> subtype e = None ->
            text e = Some "<@BOT> help" ->
            handleEvent (Instance.instance 0) e = handlers_appMention (Instance.instance 0) e.
Proof.
  intros e Ht Hs Hx. apply handleEvent_appMention.
  exists "App_Mention", "<@BOT> help". repeat split; try assumption. discriminate.
Qed.

Example MESSAGE_routed :
  forall e, type e = Some "MESSAGE" -> subtype e = None ->
            text e = Some "thing++" ->
            handleEvent (Instance.instance 0) e = handlers_message (Instance.instance 0) e.
Proof.
  intros e Ht Hs Hx. apply handleEvent_message.
  exists "MESSAGE", "thing++". repeat split; try assumption. discriminate.
Qed.

(** C10.  The type is matched after [camelCase], but a type that
    normalises to neither "message" nor "appMention" does not always
    yield [false]: when it normalises to "toString", [handleEvent] calls
    the method that [handlers] inherits and returns its string.  The
    statement that all other type strings yield [false] does not hold of the
    code. *)
Theorem C10_other_type_not_always_false (d : deps) (e : event) :
  routed_to d e "toString" ->
  value (handleEvent d e) = JsString "[object Object]" /\
  trace (handleEvent d e) = [].
Proof.
  intros (ty & txt & Ht & Hs & Hx & Hne & Hc).
  unfold handleEvent. rewrite Ht, Hs, Hx.
  apply String.eqb_neq in Hne. rewrite Hne, Hc. split; reflexivity.
Qed.

Lemma C10_other_type_not_always_false_run :
  let d := Instance.instance 0 in
  let e := mkEvent (Some "to_string") None (Some "hello") "U" "C" in
  value (handleEvent d e) = JsString "[object Object]" /\
  trace (handleEvent d e) = [].
Proof.
  apply (C10_other_type_not_always_false (Instance.instance 0)
           (mkEvent (Some "to_string") None (Some "hello") "U" "C")).
  exists "to_string", "hello". repeat split; try reflexivity. discriminate.
Defined.

(* ================================================================== *)
(** ** Mention events *)

(** Each command handler enters one function, launches one reply task and
    returns its promise. *)
Lemma appCommandHandlers_one_reply (d : deps) (e : event) (c : string) :
  In c validCommands ->
  exists t h,
    command_handler c = Some h /\
    value (appCommandHandlers d c e) = Promise t /\
    launched (trace (appCommandHandlers d c e)) = [t] /\
    entered (trace (appCommandHandlers d c e)) = [h].
Proof.
  intro Hin. cbn in Hin.
  repeat (destruct Hin as [<-|Hin];
          [eexists; eexists; repeat split; reflexivity|]).
  destruct Hin.
Qed.

(** C8.  For every mention event, exactly one reply task is launched and
    its promise is what the dispatch returns: when the text resolves to a
    command of the vocabulary, the handler of that command is the one
    function entered from [handlers.appMention]; otherwise the default
    message is sent to the channel of the event. *)
Theorem C8_mention_one_reply (d : deps) (e : event) :
  routed_to d e "appMention" ->
  (forall c, resolved d e = Some c -> In c validCommands) ->
  exists t,
    value (handleEvent d e) = Promise t /\
    launched (trace (handleEvent d e)) = [t] /\
    match resolved d e with
    | Some c =>
        exists h, command_handler c = Some h /\
                  entered (trace (handleEvent d e)) = [AppMentionHandler; h]
    | None =>
        t = Sending defaultMessage (channel e) /\
        entered (trace (handleEvent d e)) = [AppMentionHandler]
    end.
Proof.
  intros Hr Hvoc. rewrite (handleEvent_appMention d e Hr).
  unfold resolved in *. unfold handlers_appMention.
  rewrite value_bind, !trace_bind, launched_app, entered_app.
  cbn [emit value trace fst snd launched entered flat_map entered_of task_of app].
  destruct (extractCommand d (text e) validCommands) as [c|]; cbn [Js.falsy negb].
  - destruct (String.eqb c "") eqn:Hc; cbn [negb].
    + eexists. repeat split; reflexivity.
    + destruct (appCommandHandlers_one_reply d e c (Hvoc c eq_refl))
        as (t & h & Hh & Hv & Hl & He).
      exists t. repeat split; try assumption.
      exists h. split; [assumption|]. now rewrite He.
  - eexists. repeat split; reflexivity.
Qed.

Lemma C8_mention_one_reply_run :
  let d := Instance.instance 3 in
  let e := mkEvent (Some "app_mention") None (Some "<@BOT> thanks") "U0" "C1" in
  exists t,
    value (handleEvent d e) = Promise t /\
    launched (trace (handleEvent d e)) = [t] /\
    match resolved d e with
    | Some c =>
        exists h, command_handler c = Some h /\
                  entered (trace (handleEvent d e)) = [AppMentionHandler; h]
    | None =>
        t = Sending defaultMessage (channel e) /\
        entered (trace (handleEvent d e)) = [AppMentionHandler]
    end.
Proof.
  apply (C8_mention_one_reply (Instance.instance 3)
           (mkEvent (Some "app_mention") None (Some "<@BOT> thanks") "U0" "C1")).
  - exists "app_mention", "<@BOT> thanks". repeat split; try reflexivity. discriminate.
  - intros c H. vm_compute in H. injection H as <-. cbn. tauto.
Defined.

(** Three mention events on the instance: the leaderboard command, a
    thanks and a text without a command. *)
Example mention_leaderboard :
  let e := mkEvent (Some "app_mention") None (Some "<@BOT> leaderboard") "U0" "C1" in
  handleEvent (Instance.instance 0) e
  = (Promise (LeaderboardTask e),
     [Enter AppMentionHandler; Enter LeaderboardHandler; Async (LeaderboardTask e)]).
Proof. reflexivity. Qed.

Example mention_thanks :
  handleEvent (Instance.instance 3)
              (mkEvent (Some "app_mention") None (Some "<@BOT> thanks") "U0" "C1")
  = (Promise (Sending "<@U0> No thank YOU!" "C1"),
     [Enter AppMentionHandler; Enter SayThankyou;
      SendMessage "<@U0> No thank YOU!" "C1"]).
Proof. reflexivity. Qed.

Example mention_unknown :
  handleEvent (Instance.instance 0)
              (mkEvent (Some "app_mention") None (Some "<@BOT> sing") "U0" "C1")
  = (Promise (Sending defaultMessage "C1"),
     [Enter AppMentionHandler; SendMessage defaultMessage "C1"]).
Proof. reflexivity. Qed.

(* ================================================================== *)
(** ** The loop of [handlers.message] in closed form *)

Lemma forEach_batch (d : deps) (e : event) (l : list string) :
  forall st,
    forEach (message_item d e) l st =
    (mkLoop (promises st
             ++ map (plus_minus_task e) (batch d (alreadyBeenHandledItems st) l))
            (alreadyBeenHandledItems st
             ++ map (fun tok => item (extractPlusMinusEventData d tok)) l),
     flat_map (pair_effects d e) (batch d (alreadyBeenHandledItems st) l)).
Proof.
  induction l as [|tok l IH]; intro st.
  - cbn. rewrite !app_nil_r. now destruct st.
  - cbn [forEach batch map]. rewrite message_item_eq. cbn zeta.
    set (dt := extractPlusMinusEventData d tok).
    assert (forall P,
               bind (mkLoop P (alreadyBeenHandledItems st ++ [item dt]), [])
                    (fun s' => forEach (message_item d e) l s') =
               (mkLoop (P ++ map (plus_minus_task e)
                                 (batch d (alreadyBeenHandledItems st ++ [item dt]) l))
                       (alreadyBeenHandledItems st
                        ++ item dt :: map (fun tok => item (extractPlusMinusEventData d tok)) l),
                flat_map (pair_effects d e)
                         (batch d (alreadyBeenHandledItems st ++ [item dt]) l)))
      as Hskip.
    { intro P. unfold bind. rewrite IH. cbn. now rewrite <- app_assoc. }
    destruct (accepted (alreadyBeenHandledItems st) dt); [|apply Hskip].
    destruct (item dt) as [i|]; [|apply Hskip].
    destruct (operation dt) as [o|]; [|apply Hskip].
    unfold bind. rewrite IH. cbn [promises alreadyBeenHandledItems flat_map map].
    unfold pair_effects at 2, plus_minus_task at 2. cbn [fst snd].
    now rewrite <- !app_assoc.
Qed.

Lemma handlers_message_eq (d : deps) (e : event) :
  handlers_message d e =
  (match batch d [] (tokens d e) with
   | [] => JsFalse
   | b => PromiseAll (map (plus_minus_task e) b)
   end,
   Enter MessageHandler :: flat_map (pair_effects d e) (batch d [] (tokens d e))).
Proof.
  unfold handlers_message, tokens.
  destruct (extractEvents d (text e)) as [l|].
  - unfold bind at 1. cbn [emit]. unfold bind. rewrite forEach_batch.
    cbn [promises alreadyBeenHandledItems app].
    destruct (batch d [] l); cbn; now rewrite ?app_nil_r.
  - reflexivity.
Qed.

Lemma mutations_batch (d : deps) (e : event) (b : list (string * string)) :
  mutations (flat_map (pair_effects d e) b) = b.
Proof.
  induction b as [|[i o] b IH]; [reflexivity|].
  cbn [flat_map]. rewrite mutations_app, IH. unfold pair_effects. cbn [fst snd].
  now rewrite mutations_item_effects.
Qed.

Lemma handlers_message_mutations (d : deps) (e : event) :
  mutations (trace (handlers_message d e)) = batch d [] (tokens d e).
Proof.
  rewrite handlers_message_eq. cbn [trace snd].
  change (Enter MessageHandler :: ?t) with ([Enter MessageHandler] ++ t).
  rewrite mutations_app. cbn [mutations flat_map mutation_of app].
  apply mutations_batch.
Qed.

Lemma handlers_message_value (d : deps) (e : event) :
  value (handlers_message d e) =
  match mutations (trace (handlers_message d e)) with
  | [] => JsFalse
  | b => PromiseAll (map (plus_minus_task e) b)
  end.
Proof. rewrite handlers_message_mutations, handlers_message_eq. reflexivity. Qed.

(** X1.  The array given to [Promise.all] holds one plus/minus task for
    each mutation requested of the store, in the same order and for the
    channel of the event, and nothing else; with no mutation the handler
    returns [false]. *)
Theorem aggregate_is_one_task_per_mutation (d : deps) (e : event) :
  aggregated (value (handlers_message d e)) =
    map (plus_minus_task e) (mutations (trace (handlers_message d e))) /\
  (value (handlers_message d e) = JsFalse <->
   mutations (trace (handlers_message d e)) = []) /\
  calls HandlePlusMinus (trace (handlers_message d e)) =
    length (mutations (trace (handlers_message d e))).
Proof.
  rewrite handlers_message_value.
  rewrite handlers_message_mutations.
  split; [|split].
  - now destruct (batch d [] (tokens d e)).
  - destruct (batch d [] (tokens d e)); split; try reflexivity; discriminate.
  - rewrite handlers_message_eq. cbn [trace snd].
    change (Enter MessageHandler :: ?t) with ([Enter MessageHandler] ++ t).
    rewrite calls_app. cbn [calls entered flat_map entered_of app filter handler_eqb length].
    induction (batch d [] (tokens d e)) as [|[i o] b IH]; [reflexivity|].
    cbn [flat_map length]. rewrite calls_app, <- IH.
    unfold pair_effects, item_effects, self_plus_effects, retrieve_effects. cbn [fst snd].
    destruct (String.eqb i (user e) && String.eqb "+" o), (String.eqb "=" o); reflexivity.
Qed.

Lemma handlers_message_trace_batch (d : deps) (e : event) :
  trace (handlers_message d e) =
  [Enter MessageHandler]
  ++ flat_map (pair_effects d e) (mutations (trace (handlers_message d e))).
Proof. rewrite handlers_message_mutations, handlers_message_eq. reflexivity. Qed.

Lemma batch_subseq (d : deps) (l : list string) :
  forall handled,
    subseq (map pair_data (batch d handled l)) (map (extractPlusMinusEventData d) l).
Proof.
  induction l as [|tok l IH]; intro handled; [constructor|].
  cbn [batch map].
  destruct (accepted handled (extractPlusMinusEventData d tok));
    [|apply subseq_skip, IH].
  destruct (extractPlusMinusEventData d tok) as [[i|] [o|]]; cbn [item operation];
    try (apply subseq_skip, IH).
  cbn [map]. unfold pair_data at 1. cbn [fst snd]. apply subseq_take, IH.
Qed.

(** X2.  The mutations requested for one message follow the order of the
    tokens in the text: their (item, operation) data are the data of the
    tokens with some tokens left out, so that there is at most one
    mutation per token. *)
Theorem mutations_follow_text_order (d : deps) (e : event) :
  subseq (map pair_data (mutations (trace (handlers_message d e))))
         (map (extractPlusMinusEventData d) (tokens d e)) /\
  length (mutations (trace (handlers_message d e))) <= length (tokens d e).
Proof.
  rewrite handlers_message_mutations.
  pose proof (batch_subseq d (tokens d e) []) as Hs. split; [exact Hs|].
  assert (forall (A : Type) (l1 l2 : list A), subseq l1 l2 -> length l1 <= length l2) as Hlen.
  { intros A l1 l2 H. induction H; cbn; lia. }
  apply Hlen in Hs. now rewrite !length_map in Hs.
Qed.

Lemma batch_fields (d : deps) (l : list string) :
  forall handled,
    Forall (fun p => fst p <> "" /\ snd p <> "") (batch d handled l).
Proof.
  induction l as [|tok l IH]; intro handled; [constructor|].
  cbn [batch].
  destruct (accepted handled (extractPlusMinusEventData d tok)) eqn:Hacc; [|apply IH].
  destruct (extractPlusMinusEventData d tok) as [[i|] [o|]]; cbn [item operation];
    try apply IH.
  constructor; [|apply IH].
  unfold accepted in Hacc. cbn [item operation] in Hacc.
  apply negb_true_iff, orb_false_iff in Hacc. destruct Hacc as [Hacc _].
  apply orb_false_iff in Hacc. destruct Hacc as [Hi Ho].
  cbn in Hi, Ho. apply String.eqb_neq in Hi, Ho. now split.
Qed.

(** X3.  The score store is never asked to mutate an empty item, nor with
    an empty operation. *)
Theorem no_mutation_of_empty_item (d : deps) (e : event) :
  Forall (fun p => fst p <> "" /\ snd p <> "")
         (mutations (trace (handlers_message d e))).
Proof. rewrite handlers_message_mutations. apply batch_fields. Qed.

Lemma retrievals_app (t1 t2 : list effect) :
  retrievals (t1 ++ t2) = retrievals t1 ++ retrievals t2.
Proof. apply flat_map_app. Qed.

(** X4.  Within any batch, every item whose score is read by the
    retrieval handler is also mutated with the operation '=', and every
    entry into the self-plus handler is for a pair (actor, '+') that is
    mutated as well: the retrievals are the '=' mutations and the
    self-plus calls count the (actor, '+') mutations. *)
Theorem retrievals_and_self_plus_are_mutated (d : deps) (e : event) :
  retrievals (trace (handlers_message d e)) =
    map fst (filter (fun p => String.eqb "=" (snd p))
                    (mutations (trace (handlers_message d e)))) /\
  calls HandleRetrieveScore (trace (handlers_message d e)) =
    length (filter (fun p => String.eqb "=" (snd p))
                   (mutations (trace (handlers_message d e)))) /\
  calls HandleSelfPlus (trace (handlers_message d e)) =
    length (filter (fun p => String.eqb (fst p) (user e) && String.eqb "+" (snd p))
                   (mutations (trace (handlers_message d e)))).
Proof.
  pose proof (handlers_message_trace_batch d e) as Ht.
  remember (mutations (trace (handlers_message d e))) as b eqn:Hb. clear Hb.
  rewrite Ht. clear Ht.
  rewrite retrievals_app, !calls_app.
  cbn [retrievals calls entered flat_map retrieval_of entered_of app filter
       handler_eqb length Nat.add].
  induction b as [|[i o] b IH]; [repeat split|].
  destruct IH as (IH1 & IH2 & IH3).
  cbn [flat_map filter fst snd]. rewrite retrievals_app, !calls_app, IH1, IH2, IH3.
  unfold pair_effects, item_effects, self_plus_effects, retrieve_effects.
  cbn [fst snd].
  destruct (String.eqb i (user e) && String.eqb "+" o), (String.eqb "=" o);
    repeat split; reflexivity.
Qed.

(** X5.  The reply tasks launched for one message are the tasks of the
    aggregate together with one task for each entry into the self-plus
    handler and one for each entry into the retrieval handler; these last
    two kinds are never in the aggregate. *)
Theorem launched_tasks_count (d : deps) (e : event) :
  length (launched (trace (handlers_message d e))) =
    length (aggregated (value (handlers_message d e)))
    + calls HandleSelfPlus (trace (handlers_message d e))
    + calls HandleRetrieveScore (trace (handlers_message d e)) /\
  Forall (fun t => exists i o, t = PlusMinusTask i o (channel e))
         (aggregated (value (handlers_message d e))).
Proof.
  split.
  - assert (length (aggregated (value (handlers_message d e)))
            = length (mutations (trace (handlers_message d e)))) as ->.
    { rewrite handlers_message_value.
      destruct (mutations (trace (handlers_message d e))); cbn; [reflexivity|].
      now rewrite length_map. }
    pose proof (handlers_message_trace_batch d e) as Ht.
    remember (mutations (trace (handlers_message d e))) as b eqn:Hb. clear Hb.
    rewrite Ht. clear Ht.
    rewrite launched_app, !calls_app.
    cbn [launched calls entered flat_map task_of entered_of app filter
         handler_eqb length Nat.add].
    induction b as [|[i o] b IH]; [reflexivity|].
    cbn [flat_map length]. rewrite launched_app, length_app, !calls_app, IH.
    unfold pair_effects, item_effects, self_plus_effects, retrieve_effects.
    cbn [fst snd].
    destruct (String.eqb i (user e) && String.eqb "+" o), (String.eqb "=" o);
      cbn; lia.
  - rewrite handlers_message_value.
    destruct (mutations (trace (handlers_message d e))) as [|p b]; [constructor|].
    cbn [aggregated]. apply Forall_forall. intros t Hin.
    apply in_map_iff in Hin. destruct Hin as ([i o] & <- & _).
    now exists i, o.
Qed.


(** X7.  The aggregate of a message event is fulfilled exactly when there
    is a mutation and, for every mutation requested, the store accepts it
    and the transport accepts the reply built from the new score. *)
Theorem aggregate_fulfilled_iff (d : deps) (w : world) (e : event) :
  outcome d w (value (handlers_message d e)) = Some true <->
  mutations (trace (handlers_message d e)) <> [] /\
  Forall (pair_succeeds d w e) (mutations (trace (handlers_message d e))).
Proof.
  rewrite handlers_message_value.
  assert (forall b, forallb (fulfilled d w) (map (plus_minus_task e) b) = true
                    <-> Forall (pair_succeeds d w e) b) as Hall.
  { induction b as [|[i o] b IH]; cbn [map forallb].
    - split; [constructor | reflexivity].
    - rewrite andb_true_iff, IH. unfold fulfilled at 1, plus_minus_task at 1.
      cbn [complete fst snd]. split.
      + intros [Hp Hb]. constructor; [|exact Hb].
        unfold pair_succeeds, plus_minus_reply. cbn [fst snd].
        destruct (updateScore w i o) as [score|]; [|discriminate].
        now exists score.
      + intro H. inversion H as [|? ? (score & Hu & Hs) Hb]; subst.
        split; [|exact Hb]. unfold plus_minus_reply in Hs. cbn [fst snd] in *.
        now rewrite Hu. }
  destruct (mutations (trace (handlers_message d e))) as [|p b].
  - cbn. split; [discriminate | intros [H _]; congruence].
  - unfold outcome. split.
    + intro H. injection H as H. apply (Hall (p :: b)) in H.
      split; [discriminate | exact H].
    + intros [_ H]. apply (Hall (p :: b)) in H. now rewrite H.
Qed.

Lemma targets_unique_but_first_run :
  let d := Instance.instance 0 in
  let e := message_event "thing++ other++ other-- thing--" "U" "C" in
  targets (trace (handlers_message d e)) = ["thing"; "other"; "thing"] /\
  NoDup (other_than (Some "thing") (targets (trace (handlers_message d e)))).
Proof.
  split; [reflexivity|].
  apply (targets_unique_but_first (Instance.instance 0)
           (message_event "thing++ other++ other-- thing--" "U" "C")
           "thing++" ["other++"; "other--"; "thing--"]).
  reflexivity.
Defined.

(* ================================================================== *)
(** ** A dropped duplicate leaves no mark *)

Lemma value_eq_dec (u v : option string) : {u = v} + {u <> v}.
Proof. decide equality. apply string_dec. Defined.

Lemma indexOf_from_absent (x : option string) (l : list (option string)) :
  forall i, ~ In x l -> Js.indexOf_from i x l = (-1)%Z.
Proof.
  induction l as [|y l IH]; intros i Hn; [reflexivity|].
  cbn. destruct (Js.strict_eq y x) eqn:Hy.
  - apply strict_eq_true in Hy. subst. exfalso. apply Hn. now left.
  - apply IH. intro H. apply Hn. now right.
Qed.

Lemma indexOf_from_app_found (x : option string) (a c : list (option string)) :
  forall i, In x a -> Js.indexOf_from i x (a ++ c) = Js.indexOf_from i x a.
Proof.
  induction a as [|y a IH]; intros i Hin; [destruct Hin|].
  cbn. destruct (Js.strict_eq y x) eqn:Hy; [reflexivity|].
  apply IH. destruct Hin as [->|Hin]; [|exact Hin].
  assert (Js.strict_eq x x = true) by now apply strict_eq_true. congruence.
Qed.

Lemma indexOf_from_app_absent (x : option string) (a c : list (option string)) :
  forall i, ~ In x a ->
            Js.indexOf_from i x (a ++ c) = Js.indexOf_from (i + Z.of_nat (length a)) x c.
Proof.
  induction a as [|y a IH]; intros i Hn.
  - cbn. now rewrite Z.add_0_r.
  - cbn [app Js.indexOf_from length]. destruct (Js.strict_eq y x) eqn:Hy.
    + apply strict_eq_true in Hy. subst. exfalso. apply Hn. now left.
    + rewrite IH by (intro H; apply Hn; now right). f_equal. lia.
Qed.

(** Pushing again an item that is already in the array changes the
    outcome of no later duplicate test. *)
Lemma duplicate_test_stable (x y : option string) (a c : list (option string)) :
  In x a ->
  (0 <? Js.indexOf (a ++ x :: c) y)%Z = (0 <? Js.indexOf (a ++ c) y)%Z.
Proof.
  intro Hx. unfold Js.indexOf.
  destruct (in_dec value_eq_dec y a) as [Hy|Hy].
  - now rewrite !indexOf_from_app_found.
  - rewrite !indexOf_from_app_absent by exact Hy.
    assert (0 < Z.of_nat (length a))%Z as Hlen by (destruct a; [destruct Hx | cbn; lia]).
    cbn [Js.indexOf_from].
    destruct (Js.strict_eq x y) eqn:Hxy.
    { apply strict_eq_true in Hxy. subst. contradiction. }
    destruct (in_dec value_eq_dec y c) as [Hc|Hc].
    + pose proof (indexOf_from_found y c (0 + Z.of_nat (length a) + 1)%Z Hc).
      pose proof (indexOf_from_found y c (0 + Z.of_nat (length a))%Z Hc).
      assert ((0 <? Js.indexOf_from (0 + Z.of_nat (length a) + 1) y c)%Z = true) as ->
          by (apply Z.ltb_lt; lia).
      symmetry. apply Z.ltb_lt. lia.
    + now rewrite !indexOf_from_absent.
Qed.

Lemma batch_insert (d : deps) (x : option string) (a : list (option string))
      (l : list string) :
  In x a ->
  forall c, batch d (a ++ x :: c) l = batch d (a ++ c) l.
Proof.
  intro Hx. induction l as [|tok l IH]; intro c; [reflexivity|].
  cbn [batch]. unfold accepted.
  rewrite (duplicate_test_stable x _ a c Hx).
  rewrite <- !app_assoc. cbn [app]. rewrite (IH (c ++ [_])).
  reflexivity.
Qed.

Lemma batch_app (d : deps) (l1 l2 : list string) :
  forall handled,
    batch d handled (l1 ++ l2) =
    batch d handled l1
    ++ batch d (handled ++ map (fun tok => item (extractPlusMinusEventData d tok)) l1) l2.
Proof.
  induction l1 as [|tok l1 IH]; intro handled.
  - cbn. now rewrite app_nil_r.
  - cbn [app batch map]. rewrite IH, <- app_assoc. cbn [app].
    destruct (accepted handled (extractPlusMinusEventData d tok)); [|reflexivity].
    destruct (item (extractPlusMinusEventData d tok)); [|reflexivity].
    destruct (operation (extractPlusMinusEventData d tok)); reflexivity.
Qed.

(** X9.  A token whose target already stands at an index above 0 among
    the items of the tokens before it is dropped without a trace: the
    dispatch behaves as for the same message without that token, whatever
    follows it. *)
Theorem dropped_duplicate_leaves_no_mark
        (d : deps) (e e' : event) (l1 l2 : list string) (tok : string) :
  tokens d e = l1 ++ tok :: l2 ->
  tokens d e' = l1 ++ l2 ->
  user e' = user e -> channel e' = channel e ->
  (0 < Js.indexOf (map (fun t => item (extractPlusMinusEventData d t)) l1)
                  (item (extractPlusMinusEventData d tok)))%Z ->
  handlers_message d e = handlers_message d e'.
Proof.
  intros Ht Ht' Hu Hc Hidx.
  rewrite !handlers_message_eq, Ht, Ht'.
  assert (batch d [] (l1 ++ tok :: l2) = batch d [] (l1 ++ l2)) as ->.
  { rewrite !batch_app. f_equal. cbn [app batch].
    set (items := map (fun t => item (extractPlusMinusEventData d t)) l1) in *.
    rewrite (later_duplicate_rejected items _ Hidx).
    rewrite <- (app_nil_r items) at 2.
    apply (batch_insert d _ items l2).
    destruct (in_dec value_eq_dec
                     (item (extractPlusMinusEventData d tok)) items) as [Hin|Hn];
      [exact Hin|].
    unfold Js.indexOf in Hidx. rewrite indexOf_from_absent in Hidx by exact Hn. lia. }
  unfold plus_minus_task, pair_effects, item_effects, self_plus_effects,
    retrieve_effects, plus_minus_effects.
  now rewrite Hu, Hc.
Qed.

Lemma dropped_duplicate_leaves_no_mark_run :
  let d := Instance.instance 0 in
  handlers_message d (message_event "a++ b++ b-- c=" "U" "C") =
  handlers_message d (message_event "a++ b++ c=" "U" "C").
Proof.
  apply (dropped_duplicate_leaves_no_mark (Instance.instance 0)
           (message_event "a++ b++ b-- c=" "U" "C")
           (message_event "a++ b++ c=" "U" "C")
           ["a++"; "b++"] ["c="] "b--"); reflexivity.
Defined.

(* ================================================================== *)
(** ** What [handleEvent] lets through *)

Lemma warnings_app (t1 t2 : list effect) : warnings (t1 ++ t2) = warnings t1 ++ warnings t2.
Proof. apply flat_map_app. Qed.

(** The handlers of the table log no warning. *)
Lemma handlers_message_quiet (d : deps) (e : event) :
  warnings (trace (handlers_message d e)) = [].
Proof.
  rewrite handlers_message_eq. cbn [trace snd].
  change (Enter MessageHandler :: ?t) with ([Enter MessageHandler] ++ t).
  rewrite warnings_app. cbn [warnings flat_map warnings_of app].
  induction (batch d [] (tokens d e)) as [|[i o] b IH]; [reflexivity|].
  cbn [flat_map]. rewrite warnings_app, IH.
  unfold pair_effects, item_effects, self_plus_effects, retrieve_effects. cbn [fst snd].
  destruct (String.eqb i (user e) && String.eqb "+" o), (String.eqb "=" o); reflexivity.
Qed.

(** [handlers.appMention] warns of nothing and leaves the score store
    alone, whatever the resolver answers. *)
Lemma handlers_appMention_quiet (d : deps) (e : event) :
  warnings (trace (handlers_appMention d e)) = [] /\
  mutations (trace (handlers_appMention d e)) = [] /\
  retrievals (trace (handlers_appMention d e)) = [] /\
  exists tr, trace (handlers_appMention d e) = Enter AppMentionHandler :: tr.
Proof.
  unfold handlers_appMention.
  destruct (extractCommand d (text e) validCommands) as [c|];
    [|repeat split; eexists; reflexivity].
  unfold Js.falsy.
  destruct (String.eqb c ""); [repeat split; eexists; reflexivity|].
  unfold appCommandHandlers.
  repeat match goal with
         | |- context [if String.eqb c ?s then _ else _] => destruct (String.eqb c s)
         end;
    try (repeat split; eexists; reflexivity).
  destruct (object_prototype c); repeat split; eexists; reflexivity.
Qed.

(** X10.  [handleEvent] enters a function of [events.js], or launches a
    reply task, only for an event that has a type, no subtype and a text
    that is not blank, and whose type normalises to "message" or to
    "appMention". *)
Theorem handler_entered_only_if_routed (d : deps) (e : event) :
  entered (trace (handleEvent d e)) <> [] \/ launched (trace (handleEvent d e)) <> [] ->
  routed_to d e "message" \/ routed_to d e "appMention".
Proof.
  unfold handleEvent, routed_to.
  destruct (type e) as [ty|]; [|cbn; tauto].
  destruct (subtype e) as [st|]; [cbn; tauto|].
  destruct (text e) as [txt|]; [|cbn; tauto].
  destruct (String.eqb_spec (Js.trim txt) "") as [Hb|Hb]; [cbn; tauto|].
  unfold handlers.
  destruct (String.eqb_spec (camelCase d ty) "message") as [Hm|Hm].
  { intros _. left. exists ty, txt. repeat split; assumption. }
  destruct (String.eqb_spec (camelCase d ty) "appMention") as [Ha|Ha].
  { intros _. right. exists ty, txt. repeat split; assumption. }
  destruct (object_prototype (camelCase d ty)) as [p|]; [|cbn; tauto].
  destruct (is_function p); cbn; tauto.
Qed.

Lemma handler_entered_only_if_routed_run :
  let d := Instance.instance 0 in
  let e := mkEvent (Some "App Mention") None (Some "<@BOT> help") "U" "C" in
  routed_to d e "message" \/ routed_to d e "appMention".
Proof.
  apply (handler_entered_only_if_routed (Instance.instance 0)
           (mkEvent (Some "App Mention") None (Some "<@BOT> help") "U" "C")).
  left. discriminate.
Defined.

(** X11.  Whenever a warning is logged during [handleEvent], the
    leaderboard command apart (its handler is another module's), that
    warning is the only effect: [handleEvent] returns [false], enters no
    handler and launches no reply. *)
Theorem warning_means_not_handled (d : deps) (e : event) :
  resolved d e <> Some "leaderboard" ->
  warnings (trace (handleEvent d e)) <> [] ->
  exists diagnostic, handleEvent d e = (JsFalse, [ConsoleWarn diagnostic]).
Proof.
  intros _. unfold handleEvent.
  destruct (type e) as [ty|]; [|now eexists].
  destruct (subtype e) as [st|]; [now eexists|].
  destruct (match text e with
            | Some text0 => String.eqb (Js.trim text0) ""
            | None => true
            end); [now eexists|].
  unfold handlers.
  destruct (String.eqb (camelCase d ty) "message").
  { intro H. now rewrite handlers_message_quiet in H. }
  destruct (String.eqb (camelCase d ty) "appMention").
  { intro H. destruct (handlers_appMention_quiet d e) as [Hq _]. now rewrite Hq in H. }
  destruct (object_prototype (camelCase d ty)) as [p|]; [|now eexists].
  destruct (is_function p); [|now eexists].
  intro H. now cbn in H.
Qed.

Lemma warning_means_not_handled_run :
  exists diagnostic,
    handleEvent (Instance.instance 0)
                (mkEvent (Some "message") (Some "channel_join") (Some "thing++") "U" "C")
    = (JsFalse, [ConsoleWarn diagnostic]).
Proof.
  apply (warning_means_not_handled (Instance.instance 0)
           (mkEvent (Some "message") (Some "channel_join") (Some "thing++") "U" "C")).
  - discriminate.
  - discriminate.
Defined.

(** *** Blank texts *)

Lemma trim_start_blank (s : string) : all_space s = true -> Js.trim_start s = "".
Proof.
  induction s as [|c s IH]; [reflexivity|].
  cbn. intro H. apply andb_true_iff in H. destruct H as [Hc Hs].
  rewrite Hc. now apply IH.
Qed.

Lemma trim_start_all_space (s : string) :
  all_space (Js.trim_start s) = true -> all_space s = true.
Proof.
  induction s as [|c s IH]; [reflexivity|].
  cbn [Js.trim_start]. destruct (Js.is_space c) eqn:Hc.
  - intro H. cbn. rewrite Hc. now apply IH.
  - cbn. now rewrite Hc.
Qed.

Lemma trim_end_empty (s : string) : Js.trim_end s = "" -> all_space s = true.
Proof.
  induction s as [|c s IH]; [reflexivity|].
  cbn. destruct (Js.trim_end s); [|discriminate].
  destruct (Js.is_space c); [|discriminate].
  intros _. now apply IH.
Qed.

Lemma trim_empty_iff (s : string) : Js.trim s = "" <-> all_space s = true.
Proof.
  unfold Js.trim. split.
  - intro H. now apply trim_start_all_space, trim_end_empty.
  - intro H. now rewrite trim_start_blank.
Qed.

(** X12.  For an event with a type and no subtype, the text check
    rejects exactly the texts made of white space only (the empty text
    among them): [handleEvent] then returns [false] with the warning
    "Event text missing", and for no other text. *)
Theorem blank_text_rejected_iff (d : deps) (e : event) (ty txt : string) :
  type e = Some ty -> subtype e = None -> text e = Some txt ->
  (handleEvent d e = (JsFalse, [ConsoleWarn "Event text missing"])
   <-> all_space txt = true).
Proof.
  intros Ht Hs Hx. unfold handleEvent. rewrite Ht, Hs, Hx.
  rewrite <- trim_empty_iff.
  destruct (String.eqb_spec (Js.trim txt) "") as [Hb|Hb]; [tauto|].
  split; [|tauto]. intro H. exfalso.
  unfold handlers in H.
  destruct (String.eqb (camelCase d ty) "message").
  { rewrite handlers_message_eq in H. discriminate. }
  destruct (String.eqb (camelCase d ty) "appMention").
  { destruct (handlers_appMention_quiet d e) as (_ & _ & _ & tr & Htr).
    apply (f_equal snd) in H. unfold trace in Htr. rewrite Htr in H. discriminate. }
  destruct (object_prototype (camelCase d ty)) as [p|]; [|discriminate].
  destruct (is_function p); discriminate.
Qed.

Lemma blank_text_rejected_iff_run :
  let tab := String (ascii_of_nat 9) EmptyString in
  let e := mkEvent (Some "message") None (Some (" " +++ tab +++ nl)) "U" "C" in
  handleEvent (Instance.instance 0) e = (JsFalse, [ConsoleWarn "Event text missing"])
  <-> all_space (" " +++ tab +++ nl) = true.
Proof.
  apply (blank_text_rejected_iff (Instance.instance 0)
           (mkEvent (Some "message") None
                    (Some (" " +++ String (ascii_of_nat 9) EmptyString +++ nl)) "U" "C")
           "message"); reflexivity.
Defined.

(* ================================================================== *)
(** ** Mention events, further *)

(** X13.  A mention event whose command is not the leaderboard (the
    handler of which is another module's) never reaches the score store,
    whatever its text: no mutation is requested and no individual score
    is read, even for the commands "++" and "--". *)
Theorem mention_leaves_scores_alone (d : deps) (e : event) :
  routed_to d e "appMention" ->
  resolved d e <> Some "leaderboard" ->
  mutations (trace (handleEvent d e)) = [] /\
  retrievals (trace (handleEvent d e)) = [] /\
  calls HandlePlusMinus (trace (handleEvent d e)) = 0.
Proof.
  intros Hr _. rewrite (handleEvent_appMention d e Hr).
  destruct (handlers_appMention_quiet d e) as (_ & Hm & Hq & _).
  split; [exact Hm|]. split; [exact Hq|].
  unfold handlers_appMention.
  destruct (extractCommand d (text e) validCommands) as [c|]; [|reflexivity].
  unfold Js.falsy. destruct (String.eqb c ""); [reflexivity|].
  unfold appCommandHandlers.
  repeat match goal with
         | |- context [if String.eqb c ?s then _ else _] => destruct (String.eqb c s)
         end;
    try reflexivity.
  destruct (object_prototype c); reflexivity.
Qed.

Lemma mention_leaves_scores_alone_run :
  let d := Instance.instance 0 in
  let e := mkEvent (Some "app_mention") None (Some "<@BOT> ++") "U" "C" in
  mutations (trace (handleEvent d e)) = [] /\
  retrievals (trace (handleEvent d e)) = [] /\
  calls HandlePlusMinus (trace (handleEvent d e)) = 0.
Proof.
  apply (mention_leaves_scores_alone (Instance.instance 0)
           (mkEvent (Some "app_mention") None (Some "<@BOT> ++") "U" "C")).
  - exists "app_mention", "<@BOT> ++". repeat split; try reflexivity. discriminate.
  - discriminate.
Defined.

Lemma command_handler_none (c : string) :
  command_handler c = None ->
  String.eqb c "leaderboard" = false /\ String.eqb c "help" = false /\
  String.eqb c "thx" = false /\ String.eqb c "thanks" = false /\
  String.eqb c "thankyou" = false /\ String.eqb c "++" = false /\
  String.eqb c "--" = false.
Proof.
  unfold command_handler.
  repeat match goal with
         | |- context [if String.eqb c ?s then _ else _] => destruct (String.eqb c s)
         end; intro H; try discriminate; repeat split.
Qed.

(** X14.  When the resolver answers with a word that is neither a key of
    [appCommandHandlers] nor a property of [Object.prototype], the lookup
    gives [undefined] and calling it throws: no reply is sent, not even
    the default message. *)
Theorem mention_unknown_key_throws (d : deps) (e : event) (c : string) :
  extractCommand d (text e) validCommands = Some c ->
  c <> "" ->
  command_handler c = None ->
  object_prototype c = None ->
  handlers_appMention d e = (Throws, [Enter AppMentionHandler]).
Proof.
  intros Hc Hne Hh Hp. unfold handlers_appMention. rewrite Hc.
  unfold Js.falsy. apply String.eqb_neq in Hne. rewrite Hne.
  unfold appCommandHandlers.
  destruct (command_handler_none c Hh) as (H1 & H2 & H3 & H4 & H5 & H6 & H7).
  rewrite H1, H2, H3, H4, H5, H6, H7, Hp. reflexivity.
Qed.

Lemma mention_unknown_key_throws_run :
  handlers_appMention (Instance.careless 0)
                      (mkEvent (Some "app_mention") None (Some "<@BOT> sing") "U" "C")
  = (Throws, [Enter AppMentionHandler]).
Proof.
  apply (mention_unknown_key_throws (Instance.careless 0)
           (mkEvent (Some "app_mention") None (Some "<@BOT> sing") "U" "C") "sing").
  - reflexivity.
  - discriminate.
  - reflexivity.
  - reflexivity.
Defined.

(** *** The pools of replies *)




(* ================================================================== *)
(** ** The value of [handleEvent] *)


